(** * Rate Comparison Analysis wizard: storage snapshot and report aggregation

    A shallow embedding of [wizardStorage.ts] (the versioned localStorage
    snapshot) and of the aggregation code of [StepDataVisualization.tsx]
    (feature codes, per-store adjustment, window averages, grouping and the
    two sorts), followed by the properties the specification states about
    them.

    Conventions of the embedding.
    - A JavaScript [number] is an exact rational ([Qc]); where the source can
      produce [NaN] the type is [option Qc] with [None] for [NaN].  Rounding
      and overflow of IEEE doubles are outside the model.
    - [null]/[undefined] in a field of type [T | null] is [None : option T].
    - A string is a sequence of UTF-16 code units below 256 (Basic Latin
      and Latin-1 Supplement), one [ascii] per code unit; the white-space
      class and the case mapping are ECMAScript's on that range, so the
      no-break space U+00A0 is white space and the letters U+00C0-U+00DE
      have lower-case forms.  Text with code units from 256 on is outside
      the model.
    - A plain object used as a dictionary and only read is a [gmap]; the two
      dictionaries that are enumerated with [Object.entries] are kept as
      association lists in creation order. *)

From Stdlib Require Import ZArith QArith Qcanon String Ascii List Sorted Permutation Lia.
From stdpp Require Import base numbers list strings gmap.

Local Open Scope string_scope.
Local Open Scope Z_scope.

(** ** JavaScript primitives used by the source *)

Module JS.

(** [x || d] on a value of type [number | undefined]: [0] is falsy. *)
Definition num_or (x : option Qc) (d : Qc) : Qc :=
  match x with
  | Some q => if decide (q = 0%Qc) then d else q
  | None => d
  end.

(** Truthiness of a [number | null]. *)
Definition truthy (x : option Qc) : bool :=
  match x with
  | Some q => if decide (q = 0%Qc) then false else true
  | None => false
  end.

(** [x || null] on a [number | undefined]. *)
Definition num_or_null (x : option Qc) : option Qc :=
  if truthy x then x else None.

(** [s || d] on a [string | undefined]: the empty string is falsy. *)
Definition str_or (x : option string) (d : string) : string :=
  match x with
  | Some EmptyString => d
  | Some s => s
  | None => d
  end.

(** [Array.prototype.join]. *)
Fixpoint join (sep : string) (parts : list string) : string :=
  match parts with
  | [] => EmptyString
  | [p] => p
  | p :: ps => p ++ sep ++ join sep ps
  end.

(** [Array.prototype.find]. *)
Fixpoint find {A} (p : A -> bool) (l : list A) : option A :=
  match l with
  | [] => None
  | x :: l' => if p x then Some x else find p l'
  end.

(** [Array.prototype.reduce((a, b) => a + b, 0)].  The additions are exact
    here; a double rounds after each one, so a sum or a mean the source
    computes can differ from the exact one in its last bits. *)
Definition sum (l : list Qc) : Qc := fold_left Qcplus l 0%Qc.

(** *** Numbers that may be [NaN] ([None]) *)

Definition sub (a b : option Qc) : option Qc :=
  match a, b with
  | Some x, Some y => Some (x - y)%Qc
  | _, _ => None
  end.

Definition mul (a b : option Qc) : option Qc :=
  match a, b with
  | Some x, Some y => Some (x * y)%Qc
  | _, _ => None
  end.

(** *** Strings *)

Definition code (c : ascii) : N := N_of_ascii c.

(** The class [\s] (WhiteSpace and LineTerminator of ECMAScript, also what
    [parseFloat] skips) on code units below 256: U+0009-U+000D, the space
    and the no-break space U+00A0.  U+0085 is not in the class. *)
Definition is_space (c : ascii) : bool :=
  let n := code c in
  ((9 <=? n) && (n <=? 13) || (n =? 32) || (n =? 160))%N.

Definition is_digit (c : ascii) : bool :=
  let n := code c in ((48 <=? n) && (n <=? 57))%N.

(** The lower-case mapping of one code unit below 256: A-Z and the
    letters U+00C0-U+00DE (the multiplication sign U+00D7 is no letter)
    move up by 32, every other code unit is its own lower case. *)
Definition lower (c : ascii) : ascii :=
  let n := code c in
  if ((65 <=? n) && (n <=? 90)
      || (192 <=? n) && (n <=? 222) && negb (n =? 215))%N
  then ascii_of_N (n + 32) else c.

(** [String.prototype.toLowerCase]. *)
Fixpoint toLowerCase (s : string) : string :=
  match s with
  | EmptyString => EmptyString
  | String c s' => String (lower c) (toLowerCase s')
  end.

(** [s.replace(/re/g, '')] for a one-character class [p]. *)
Fixpoint remove (p : ascii -> bool) (s : string) : string :=
  match s with
  | EmptyString => EmptyString
  | String c s' => if p c then remove p s' else String c (remove p s')
  end.

(** [s.replace(/re/g, r)] for a one-character class [p] and a
    one-character replacement [r]. *)
Fixpoint replace (p : ascii -> bool) (r : ascii) (s : string) : string :=
  match s with
  | EmptyString => EmptyString
  | String c s' => String (if p c then r else c) (replace p r s')
  end.

(** [s.split(/\s+/)]: every maximal run of white space is one separator;
    a separator at either end leaves an empty first or last piece. *)
Fixpoint split_ws (s : string) : list string :=
  match s with
  | EmptyString => [EmptyString]
  | String c s' =>
      if is_space c then
        match s' with
        | String c' _ => if is_space c' then split_ws s' else EmptyString :: split_ws s'
        | EmptyString => EmptyString :: split_ws s'
        end
      else
        match split_ws s' with
        | t :: ts => String c t :: ts
        | [] => [String c EmptyString]
        end
  end.

(** [s.split(sep)] for a one-character separator. *)
Fixpoint split (sep : ascii) (s : string) : list string :=
  match s with
  | EmptyString => [EmptyString]
  | String c s' =>
      if Ascii.eqb c sep then EmptyString :: split sep s'
      else
        match split sep s' with
        | t :: ts => String c t :: ts
        | [] => [String c EmptyString]
        end
  end.

(** *** [parseFloat] *)

Fixpoint drop_ws (s : string) : string :=
  match s with
  | String c s' => if is_space c then drop_ws s' else s
  | EmptyString => EmptyString
  end.

(** Reads a maximal run of decimal digits: its value (continuing [acc]),
    the number of digits read and the rest of the input. *)
Fixpoint read_digits (s : string) (acc : Z) (n : nat) : Z * nat * string :=
  match s with
  | String c s' =>
      if is_digit c then read_digits s' (10 * acc + (Z.of_N (code c) - 48)) (S n)
      else (acc, n, s)
  | EmptyString => (acc, n, s)
  end.

(** An optional sign: [true] for a minus. *)
Definition read_sign (s : string) : bool * string :=
  match s with
  | String "-" s' => (true, s')
  | String "+" s' => (false, s')
  | _ => (false, s)
  end.

(** The exponent part [e[+-]digits], [0] when there is none or when no
    digit follows the [e]. *)
Definition read_exponent (s : string) : Z :=
  match s with
  | String c s' =>
      if (Ascii.eqb c "e" || Ascii.eqb c "E")%bool then
        let '(neg, s'') := read_sign s' in
        let '(e, n, _) := read_digits s'' 0 0%nat in
        match n with
        | O => 0
        | _ => if neg then - e else e
        end
      else 0
  | EmptyString => 0
  end.

(** [m * 10^e]. *)
Definition scale10 (m e : Z) : Qc :=
  if 0 <=? e then Qc_of_Z (m * 10 ^ e)
  else (Qc_of_Z m / Qc_of_Z (10 ^ (- e)))%Qc.

(** [parseFloat]: the longest prefix (after leading white space) that is
    a decimal literal; [None] ([NaN]) when there is no such prefix.  The
    capitalised literal [Infinity] has no value in [Qc] and is read as
    [NaN]; [parseSize], the only caller, lower-cases its input first. *)
Definition parseFloat (s : string) : option Qc :=
  let s := drop_ws s in
  let '(neg, s) := read_sign s in
  let '(ip, ni, s) := read_digits s 0 0%nat in
  let '(m, nf, s) :=
    match s with
    | String "." s' => read_digits s' ip 0%nat
    | _ => (ip, 0%nat, s)
    end in
  match (ni + nf)%nat with
  | O => None
  | _ =>
      let e := read_exponent s in
      let v := scale10 m (e - Z.of_nat nf) in
      Some (if neg then (- v)%Qc else v)
  end.

(** *** [Array.prototype.sort] with a comparator

    The comparator's result is a number; [NaN] counts as [+0].  For a
    consistent comparator ECMAScript fixes the result: the stable sorted
    arrangement, which is what insertion from the right computes.  For a
    comparator that is not consistent (one that returns [NaN] for some
    pairs of three or more elements) the standard leaves the order to the
    engine and this function gives one of the orders allowed; with two
    elements the result is fixed in either case. *)
Section Sort.
Context {A : Type} (cmp : A -> A -> option Qc).

Definition after (x y : A) : bool :=
  match cmp x y with
  | Some v => bool_decide (0 < v)%Qc
  | None => false
  end.

Fixpoint insert (x : A) (l : list A) : list A :=
  match l with
  | [] => [x]
  | y :: l' => if after x y then y :: insert x l' else x :: l
  end.

Definition sort (l : list A) : list A := foldr insert [] l.
End Sort.

(** *** [Object.entries] of an object with numeric keys

    Keys that are array indices (integers from 0 to 2^32 - 2) come first
    in ascending order, the other keys follow in creation order. *)
Definition is_index (k : Z) : bool := (0 <=? k) && (k <=? 4294967294).

Definition key_cmp {V} (a b : Z * V) : option Qc := Some (Qc_of_Z (a.1 - b.1)).

Definition entries {V} (o : list (Z * V)) : list (Z * V) :=
  (sort key_cmp (filter (fun kv => is_index kv.1 = true) o)
   ++ filter (fun kv => is_index kv.1 = false) o)%list.

(** The object update [if (!o[k]) o[k] = d; o[k] = f(o[k])] on an
    association list in creation order. *)
Fixpoint upsert {K V} `{EqDecision K} (k : K) (f : V -> V) (d : V)
    (o : list (K * V)) : list (K * V) :=
  match o with
  | [] => [(k, f d)]
  | (k', v) :: o' =>
      if decide (k' = k) then (k', f v) :: o' else (k', v) :: upsert k f d o'
  end.

End JS.

(** ** [localStorage] writes *)

Module LocalStorage.

(** [localStorage.setItem(key, value)]: the storage after the write, or
    [None] when the call throws (quota exceeded, storage disabled).
    Whether it throws is the host's choice, [allows ls key value]. *)
Definition setItem (allows : gmap string string -> string -> string -> bool)
    (ls : gmap string string) (key value : string)
    : option (gmap string string) :=
  if allows ls key value then Some (<[key := value]> ls) else None.

End LocalStorage.

(** ** [wizardStorage.ts]: the snapshot kept in localStorage *)

Module WizardStorage.

Definition STORAGE_KEY : string := "rca-wizard-state".
Definition STORAGE_VERSION : string := "1.0".

Section Storage.
(** The wizard state type of [@/hooks/useRCAWizard]. *)
Context {RCAWizardState : Type}.

Record StoredState := mkStored {
  version : string;
  timestamp : Z;
  state : RCAWizardState
}.

(** [JSON.parse] at the declared type [StoredState]; [None] when the call,
    or the first read of a field of its result, throws. *)
Context (JSON_parse : string -> option StoredState).

(** [localStorage]: [getItem] is lookup, [removeItem] is delete. *)
Definition clearWizardState (ls : gmap string string) : gmap string string :=
  delete STORAGE_KEY ls.

(** [loadWizardState] at time [now] ([Date.now()]): the value returned and
    the storage left behind.  Every exit of the [try] block and the [catch]
    return a value. *)
Definition loadWizardState (now : Z) (ls : gmap string string)
    : option RCAWizardState * gmap string string :=
  match ls !! STORAGE_KEY with
  | None => (None, ls)
  | Some stored =>
      if decide (stored = EmptyString) then (None, ls)
      else
        match JSON_parse stored with
        | None => (None, ls)
        | Some parsed =>
            if negb (String.eqb (version parsed) STORAGE_VERSION)
            then (None, clearWizardState ls)
            else
              let sevenDaysInMs := 7 * 24 * 60 * 60 * 1000 in
              if sevenDaysInMs <? now - timestamp parsed
              then (None, clearWizardState ls)
              else (Some (state parsed), ls)
        end
  end.

(** [JSON.stringify] of a snapshot, [None] when it throws, and the host's
    choice to accept a write. *)
Context (JSON_stringify : StoredState -> option string)
        (allows : gmap string string -> string -> string -> bool).

(** [saveWizardState] at time [now]: the storage left behind; a throw
    inside the [try] is caught and leaves the storage as it was. *)
Definition saveWizardState (now : Z) (st : RCAWizardState)
    (ls : gmap string string) : gmap string string :=
  let storedState :=
    {| version := STORAGE_VERSION; timestamp := now; state := st |} in
  match JSON_stringify storedState with
  | None => ls
  | Some text =>
      match LocalStorage.setItem allows ls STORAGE_KEY text with
      | Some ls' => ls'
      | None => ls
      end
  end.

(** [hasSavedState]: [getItem(STORAGE_KEY) !== null]. *)
Definition hasSavedState (ls : gmap string string) : bool :=
  bool_decide (ls !! STORAGE_KEY <> None).

Definition getLastSavedTimestamp (ls : gmap string string) : option Z :=
  match ls !! STORAGE_KEY with
  | None => None
  | Some stored =>
      if decide (stored = EmptyString) then None
      else
        match JSON_parse stored with
        | None => None
        | Some parsed => Some (timestamp parsed)
        end
  end.

End Storage.
End WizardStorage.

(** ** [keepalive.ts]: the keepalive timer and the activity listeners *)

Module Keepalive.

(** The module variable [keepaliveInterval] and the parts of the window it
    acts on: the active [setInterval] handles with their delays, the
    listeners registered on [document] (event type and the identity of the
    callback), and [localStorage]. *)
Record Window := mkWindow {
  keepaliveInterval : option Z;
  intervals : gmap Z Z;
  listeners : gset (string * Z);
  storage : gmap string string
}.

(** The intervals of a window are those of [base] and, when
    [keepaliveInterval] holds a handle, one more under that handle. *)
Definition one_timer (base : gmap Z Z) (w : Window) : Prop :=
  match keepaliveInterval w with
  | None => intervals w = base
  | Some handle =>
      base !! handle = None
      /\ exists intervalMs, intervals w = <[handle := intervalMs]> base
  end.

Section Keepalive.
(** The host: whether a write is accepted, the handle [window.setInterval]
    returns given the handles in use, and [Number.prototype.toString]. *)
Context (allows : gmap string string -> string -> string -> bool)
        (newHandle : gmap Z Z -> Z)
        (toString : Z -> string).

(** [keepaliveAction] at time [now] ([Date.now()]). *)
Definition keepaliveAction (now : Z) (ls : gmap string string)
    : gmap string string :=
  match LocalStorage.setItem allows ls "app-keepalive" (toString now) with
  | Some ls' => ls'
  | None => ls
  end.

Definition stopKeepalive (w : Window) : Window :=
  match keepaliveInterval w with
  | Some handle =>
      {| keepaliveInterval := None;
         intervals := delete handle (intervals w);
         listeners := listeners w;
         storage := storage w |}
  | None => w
  end.

(** [startKeepalive(intervalMs)] at time [now]; [None] is the default
    argument, five minutes. *)
Definition startKeepalive (intervalMs : option Z) (now : Z) (w : Window)
    : Window :=
  let intervalMs := default (5 * 60 * 1000) intervalMs in
  let w :=
    match keepaliveInterval w with
    | Some _ => stopKeepalive w
    | None => w
    end in
  let ls := keepaliveAction now (storage w) in
  let handle := newHandle (intervals w) in
  {| keepaliveInterval := Some handle;
     intervals := <[handle := intervalMs]> (intervals w);
     listeners := listeners w;
     storage := ls |}.

(** [handleActivity] at time [now]. *)
Definition handleActivity (now : Z) (ls : gmap string string)
    : gmap string string :=
  match LocalStorage.setItem allows ls "app-last-activity" (toString now) with
  | Some ls' => ls'
  | None => ls
  end.

Definition events : list string :=
  ["mousedown"; "keydown"; "scroll"; "touchstart"].

(** [setupActivityTracking()], [callback] being the identity of the
    [handleActivity] closure the call creates: the window with the
    listeners added, and the cleanup function. *)
Definition setupActivityTracking (callback : Z) (w : Window)
    : Window * (Window -> Window) :=
  let add (w : Window) (event : string) :=
    {| keepaliveInterval := keepaliveInterval w;
       intervals := intervals w;
       listeners := {[ (event, callback) ]} ∪ listeners w;
       storage := storage w |} in
  let remove (w : Window) (event : string) :=
    {| keepaliveInterval := keepaliveInterval w;
       intervals := intervals w;
       listeners := listeners w ∖ {[ (event, callback) ]};
       storage := storage w |} in
  (fold_left add events w, fun w => fold_left remove events w).

(** The calls of [startKeepalive] and [stopKeepalive] a program makes. *)
Inductive call :=
| Start (intervalMs : option Z) (now : Z)
| Stop.

Definition step (w : Window) (c : call) : Window :=
  match c with
  | Start intervalMs now => startKeepalive intervalMs now w
  | Stop => stopKeepalive w
  end.

Definition run (calls : list call) (w : Window) : Window :=
  fold_left step calls w.

(** What can happen to the window through this module: a call, the
    interval firing [keepaliveAction] or a listener firing
    [handleActivity], at time [now]. *)
Inductive event :=
| Called (c : call)
| TimerFired (now : Z)
| UserActive (now : Z).

Definition react (w : Window) (e : event) : Window :=
  match e with
  | Called c => step w c
  | TimerFired now =>
      {| keepaliveInterval := keepaliveInterval w;
         intervals := intervals w;
         listeners := listeners w;
         storage := keepaliveAction now (storage w) |}
  | UserActive now =>
      {| keepaliveInterval := keepaliveInterval w;
         intervals := intervals w;
         listeners := listeners w;
         storage := handleActivity now (storage w) |}
  end.

(** The effect of [RCAStepPage] that starts the keepalive and the activity
    tracking at time [now], with the cleanup it returns. *)
Definition mount (callback : Z) (now : Z) (w : Window)
    : Window * (Window -> Window) :=
  let w := startKeepalive None now w in
  let '(w, cleanupActivity) := setupActivityTracking callback w in
  (w, fun w => cleanupActivity (stopKeepalive w)).

End Keepalive.
End Keepalive.

(** ** [RCAStepPage]: navigation between the steps *)

Module StepPage.

(** The component [renderStep] returns. *)
Inductive Component :=
| StepSearch | StepSubjectStore | StepCompetitors | StepMetadata
| StepRankings | StepAdjustments | StepNames | StepDataGaps
| StepFeatureCodes | StepDataVisualization.

(** [renderStep]: [None] is the [null] of the default case. *)
Definition renderStep (stepNumber : Z) : option Component :=
  match stepNumber with
  | 1 => Some StepSearch
  | 2 => Some StepSubjectStore
  | 3 => Some StepCompetitors
  | 4 => Some StepMetadata
  | 5 => Some StepRankings
  | 6 => Some StepAdjustments
  | 7 => Some StepNames
  | 8 => Some StepDataGaps
  | 9 => Some StepFeatureCodes
  | 10 => Some StepDataVisualization
  | _ => None
  end.

Section Navigation.
(** Modelled from the spec: [WIZARD_STEPS] of [@/hooks/useRCAWizard] is
    not among the sources; only its length is read. *)
Context (WIZARD_STEPS_length : Z).

(** The step [goToNextStep] navigates to. *)
Definition goToNextStep (currentStep : Z) : Z :=
  Z.min (currentStep + 1) WIZARD_STEPS_length.

(** The step [goToPrevStep] navigates to. *)
Definition goToPrevStep (currentStep : Z) : Z :=
  Z.max (currentStep - 1) 1.

End Navigation.

(** [handleNewAnalysis]: the storage left behind and the step navigated
    to. *)
Definition handleNewAnalysis (ls : gmap string string)
    : gmap string string * Z :=
  (WizardStorage.clearWizardState ls, 1).

End StepPage.


(** ** The records of [@/types/rca]

    The module that declares these types is not among the sources.  Each
    record below has the fields the aggregation code reads. *)

(** Modelled from the spec: the type [RateRecord] (owning store, size
    label, five boolean features, observation date, optional asking and
    in-store prices).  [record.size || ''] shows that the label may be
    absent. *)
Module RateRecord.
Record t := mk {
  storeId : Z;
  size : option string;
  driveUp : bool;
  elevator : bool;
  outdoorAccess : bool;
  climateControlled : bool;
  humidityControlled : bool;
  (** time value of [new Date(r.date)]; [None] is an invalid date *)
  date : option Z;
  walkInPrice : option Qc;
  onlinePrice : option Qc
}.
End RateRecord.

(** Modelled from the spec: the type [FeatureCode], a derived tag and
    the short code the user gave it. *)
Module FeatureCode.
Record t := mk { originalTag : string; code : string }.
End FeatureCode.

(** Modelled from the spec: the type [Store] (identifier, display name,
    distance from the subject store). *)
Module Store.
Record t := mk { storeId : Z; storeName : string; distance : Qc }.
End Store.

(** Modelled from the spec: the type [StoreMetadata] (year built and
    square footage, either of which may be absent). *)
Module StoreMetadata.
Record t := mk { yearBuilt : option Qc; squareFootage : option Qc }.
End StoreMetadata.

(** Modelled from the spec: the type [AdjustmentFactors], three
    percentage components; [x || 0] shows that each may be absent. *)
Module AdjustmentFactors.
Record t := mk {
  captiveMarketPremium : option Qc;
  lossToLease : option Qc;
  ccAdj : option Qc
}.
End AdjustmentFactors.

(** Modelled from the spec: the type [StoreRankings], an object read by
    category name, [rankings[cat]], a score being possibly absent. *)
Abbreviation StoreRankings := (gmap string Qc).

(** ** [GroupedData]: the rows and groups of the report *)

Module Row.
Record t := mk {
  storeId : Z;
  storeName : string;
  distance : Qc;
  yearBuilt : option Qc;
  squareFootage : option Qc;
  isSubject : bool;
  t12Asking : option Qc;
  t12AskingAdj : option Qc;
  t12InStore : option Qc;
  t6Asking : option Qc;
  t6AskingAdj : option Qc;
  t6InStore : option Qc;
  t3Asking : option Qc;
  t3AskingAdj : option Qc;
  t3InStore : option Qc;
  t1Asking : option Qc;
  t1AskingAdj : option Qc;
  t1InStore : option Qc;
  adjustment : Qc;
  recordCount : nat
}.
End Row.

Module Averages.
Record t := mk {
  t12Asking : option Qc;
  t12AskingAdj : option Qc;
  t12InStore : option Qc;
  t6Asking : option Qc;
  t6AskingAdj : option Qc;
  t6InStore : option Qc;
  t3Asking : option Qc;
  t3AskingAdj : option Qc;
  t3InStore : option Qc;
  t1Asking : option Qc;
  t1AskingAdj : option Qc;
  t1InStore : option Qc
}.
End Averages.

Module GroupedData.
Record t := mk {
  size : string;
  featureCode : string;
  stores : list Row.t;
  averages : Averages.t;
  marketShare : Qc
}.
End GroupedData.

(** The result of [calcAverages]. *)
Module Avg.
Record t := mk { inStore : option Qc; asking : option Qc }.
End Avg.

(** The four trailing windows. *)
Inductive window := T12 | T6 | T3 | T1.

(** Window-indexed readings of a row. *)
Definition askingOf (w : window) (r : Row.t) : option Qc :=
  match w with
  | T12 => Row.t12Asking r | T6 => Row.t6Asking r
  | T3 => Row.t3Asking r | T1 => Row.t1Asking r
  end.

Definition askingAdjOf (w : window) (r : Row.t) : option Qc :=
  match w with
  | T12 => Row.t12AskingAdj r | T6 => Row.t6AskingAdj r
  | T3 => Row.t3AskingAdj r | T1 => Row.t1AskingAdj r
  end.

Definition inStoreOf (w : window) (r : Row.t) : option Qc :=
  match w with
  | T12 => Row.t12InStore r | T6 => Row.t6InStore r
  | T3 => Row.t3InStore r | T1 => Row.t1InStore r
  end.

(** Window-indexed readings of the averages of a group. *)
Definition groupAskingOf (w : window) (a : Averages.t) : option Qc :=
  match w with
  | T12 => Averages.t12Asking a | T6 => Averages.t6Asking a
  | T3 => Averages.t3Asking a | T1 => Averages.t1Asking a
  end.

Definition groupInStoreOf (w : window) (a : Averages.t) : option Qc :=
  match w with
  | T12 => Averages.t12InStore a | T6 => Averages.t6InStore a
  | T3 => Averages.t3InStore a | T1 => Averages.t1InStore a
  end.

Definition groupAskingAdjOf (w : window) (a : Averages.t) : option Qc :=
  match w with
  | T12 => Averages.t12AskingAdj a | T6 => Averages.t6AskingAdj a
  | T3 => Averages.t3AskingAdj a | T1 => Averages.t1AskingAdj a
  end.

(** The unit sizes offered by the size selector and its default choice. *)
Definition DEFAULT_UNIT_SIZES : list string :=
  ["5x5"; "5x10"; "10x10"; "10x15"; "10x20"; "10x25"; "10x30"].

Definition ALL_UNIT_SIZES : list string :=
  ["5x5"; "5x10"; "10x5"; "10x10"; "10x15"; "10x20"; "10x25"; "10x30";
   "10x40"; "15x15"; "15x20"; "20x20"].

(** ** The size selector and the expanded groups *)

(** The updater of [toggleSize]. *)
Definition toggleSize (prev : list string) (size : string) : list string :=
  if bool_decide (size ∈ prev)
  then List.filter (fun s => negb (String.eqb s size)) prev
  else (prev ++ [size])%list.

(** The updater of [toggleGroup]. *)
Definition toggleGroup (prev : gset string) (groupKey : string) : gset string :=
  let next := prev in
  if bool_decide (groupKey ∈ next) then next ∖ {[ groupKey ]}
  else {[ groupKey ]} ∪ next.

(** What the size dialog can do to [selectedSizes]: a checkbox of one of
    the sizes it lists, "Reset to Default" and "Select All". *)
Inductive sizeAction :=
| Toggle (size : string)
| ResetToDefault
| SelectAll.

Definition applySizeAction (prev : list string) (a : sizeAction) : list string :=
  match a with
  | Toggle size => toggleSize prev size
  | ResetToDefault => DEFAULT_UNIT_SIZES
  | SelectAll => ALL_UNIT_SIZES
  end.

(** The dialog lists [ALL_UNIT_SIZES]: these are the sizes it can toggle. *)
Definition offered (a : sizeAction) : Prop :=
  match a with
  | Toggle size => In size ALL_UNIT_SIZES
  | _ => True
  end.

(** ** Reading the record tables *)

(** The property read [o[k]] on an association list in creation order. *)
Fixpoint getProp {K V} `{EqDecision K} (k : K) (o : list (K * V)) : option V :=
  match o with
  | [] => None
  | (k', v) :: o' => if decide (k' = k) then Some v else getProp k o'
  end.

(** Whether a character occurs in a string. *)
Fixpoint has_char (c : ascii) (s : string) : bool :=
  match s with
  | EmptyString => false
  | String c' s' => Ascii.eqb c' c || has_char c s'
  end.

(** ** Sample inputs *)

Module Sample.

(** A record of [storeId] for a unit of [size], dated [date], with an
    asking price only. *)
Definition record (storeId : Z) (size : string) (driveUp climate : bool)
    (date : Z) (online : option Qc) : RateRecord.t :=
  {| RateRecord.storeId := storeId;
     RateRecord.size := Some size;
     RateRecord.driveUp := driveUp;
     RateRecord.elevator := false;
     RateRecord.outdoorAccess := false;
     RateRecord.climateControlled := climate;
     RateRecord.humidityControlled := false;
     RateRecord.date := Some date;
     RateRecord.walkInPrice := None;
     RateRecord.onlinePrice := online |}.

(** The subject store (1) and two comparison stores. *)
Definition subject : Store.t := Store.mk 1 "Subject" 0%Qc.
Definition stores : list Store.t :=
  [subject; Store.mk 7 "A" (Qc_of_Z 2); Store.mk 3 "B" (Qc_of_Z 1)].

(** A base adjustment of 5 percent. *)
Definition factors : AdjustmentFactors.t :=
  AdjustmentFactors.mk (Some (Qc_of_Z 5)) None None.

(** Window starts, in the same unit as the record dates. *)
Definition t12 : Z := 100.
Definition t6 : Z := 160.
Definition t3 : Z := 190.
Definition t1 : Z := 210.

(** Code-unit order, one possible collation. *)
Definition collate (a b : string) : Z :=
  match String.compare a b with Lt => -1 | Eq => 0 | Gt => 1 end.

(** Store 7 at 100 and 120, store 3 at 90, the subject at 150, all
    drive-up climate-controlled 10x10; one 7x7 record, a size that is not
    selected. *)
Definition records : list RateRecord.t :=
  [ record 7 "10x10" true true 200 (Some (Qc_of_Z 100));
    record 7 "10x10" true true 170 (Some (Qc_of_Z 120));
    record 3 "10x10" true true 205 (Some (Qc_of_Z 90));
    record 1 "10x10" true true 215 (Some (Qc_of_Z 150));
    record 3 "7x7" true true 215 (Some (Qc_of_Z 60)) ].

(** Two asking prices of store 7 that cancel. *)
Definition cancelling : list RateRecord.t :=
  [ record 7 "10x10" true true 200 (Some (Qc_of_Z 5));
    record 7 "10x10" true true 205 (Some (Qc_of_Z (-5))) ].

(** A record whose only price is a zero asking price. *)
Definition zeroPriced : list RateRecord.t :=
  [ record 7 "10x10" true true 200 (Some 0%Qc) ].

(** A size label with a leading blank after a 10x10 record. *)
Definition leadingBlank : list RateRecord.t :=
  [ record 7 "10x10" true true 200 (Some (Qc_of_Z 100));
    record 7 " 5x5" true true 200 (Some (Qc_of_Z 40)) ].

(** Three groups created in the order 10x10 elevator, 10x10 drive-up, 5x5
    drive-up, none climate-controlled. *)
Definition unordered : list RateRecord.t :=
  [ RateRecord.mk 7 (Some "10x10") false true false false false (Some 200)
      None (Some (Qc_of_Z 100));
    record 7 "10x10" true false 200 (Some (Qc_of_Z 110));
    record 7 "5x5" true false 200 (Some (Qc_of_Z 40)) ].

(** Rankings: the subject scores 0 for Location, store 7 has no score
    recorded. *)
Definition rankings : gmap Z StoreRankings :=
  {[ 1 := {[ "Location" := 0%Qc ]}; 7 := ∅ ]}.

(** A snapshot text and a parser that reads exactly that text. *)
Definition dq : string := String (ascii_of_nat 34) EmptyString.

Definition snapshotText : string :=
  "{" ++ dq ++ "version" ++ dq ++ ":" ++ dq ++ "1.0" ++ dq ++ ","
  ++ dq ++ "timestamp" ++ dq ++ ":1000,"
  ++ dq ++ "state" ++ dq ++ ":42}".

Definition parseSnapshot (s : string) : option (@WizardStorage.StoredState nat) :=
  if String.eqb s snapshotText
  then Some (WizardStorage.mkStored "1.0" 1000 42%nat)
  else None.

Definition storage : gmap string string :=
  {[ WizardStorage.STORAGE_KEY := snapshotText ]}.

(** The printer that goes with [parseSnapshot], a host that accepts every
    write and one that hands out an interval handle not in use. *)
Definition printSnapshot (s : @WizardStorage.StoredState nat) : option string :=
  if String.eqb (WizardStorage.version s) "1.0"
     && (WizardStorage.timestamp s =? 1000)
     && (WizardStorage.state s =? 42)%nat
  then Some snapshotText
  else None.

Definition allowAll (ls : gmap string string) (key value : string) : bool := true.

Definition nextHandle (used : gmap Z Z) : Z := fresh (dom used).

Definition printTime (now : Z) : string :=
  if now =? 0 then "0" else "later".

(** A snapshot text that does not parse. *)
Definition garbled : gmap string string :=
  {[ WizardStorage.STORAGE_KEY := "not json" ]}.

(** A window with another program's interval and listener. *)
Definition window : Keepalive.Window :=
  Keepalive.mkWindow None {[ 3 := 1000 ]} {[ ("click", 8) ]} storage.

(** Four rankings records: the subject's and store 7's, store 7 scoring
    lower for Location. *)
Definition ranked : gmap Z StoreRankings :=
  {[ 1 := {[ "Location" := Qc_of_Z 8 ]}; 7 := {[ "Location" := Qc_of_Z 6 ]} ]}.

End Sample.

(** ** [StepDataVisualization]: the aggregation *)

Section Aggregation.

(** The props the computation reads. *)
Context (subjectStore : option Store.t)
        (selectedStores : list Store.t)
        (storeMetadata : gmap Z StoreMetadata.t)
        (storeRankings : gmap Z StoreRankings)
        (adjustmentFactors : AdjustmentFactors.t)
        (rateRecords : list RateRecord.t)
        (customNames : gmap Z string)
        (featureCodes : list FeatureCode.t).

(** The component state. *)
Context (selectedSizes : list string).

(** The host: the time values of [t12Start] ... [t1Start], which the source
    obtains from [new Date()] by [setMonth(getMonth() - n)], and
    [String.prototype.localeCompare]. *)
Context (t12Start t6Start t3Start t1Start : Z)
        (localeCompare : string -> string -> Z).

Definition totalAdjustment : Qc :=
  (JS.num_or (AdjustmentFactors.captiveMarketPremium adjustmentFactors) 0
   + JS.num_or (AdjustmentFactors.lossToLease adjustmentFactors) 0
   + JS.num_or (AdjustmentFactors.ccAdj adjustmentFactors) 0)%Qc.

(** The tag built in the first half of [getFeatureCode]. *)
Definition getFeatureTag (record : RateRecord.t) : string :=
  let parts : list string := [] in
  let parts :=
    (parts ++ [ if RateRecord.driveUp record then "Drive-Up"
                else if RateRecord.elevator record then "Elevator"
                else if RateRecord.outdoorAccess record then "Outdoor"
                else "Ground Level" ])%list in
  let parts :=
    (parts ++ [ if RateRecord.climateControlled record then "Climate Controlled"
                else if RateRecord.humidityControlled record then "Humidity Controlled"
                else "Non-Climate" ])%list in
  JS.join " / " parts.

Definition getFeatureCode (record : RateRecord.t) : string :=
  let tag := getFeatureTag record in
  match JS.find (fun f => String.eqb (FeatureCode.originalTag f) tag) featureCodes with
  | Some fc => FeatureCode.code fc
  | None =>
      let isClimate := RateRecord.climateControlled record in
      if RateRecord.driveUp record then (if isClimate then "DUCC" else "DU")
      else if RateRecord.elevator record then (if isClimate then "ECC" else "ENCC")
      else (if isClimate then "GLCC" else "GNCC")
  end.

Definition rankingCategories : list string :=
  ["Location"; "Age"; "Accessibility"; "VPD"; "Visibility & Signage";
   "Brand"; "Quality"; "Size"].

Definition getStoreAdjustment (storeId : Z) : Qc :=
  match subjectStore with
  | None => 0%Qc
  | Some subject =>
      if decide (storeId = Store.storeId subject) then 0%Qc
      else
        match storeRankings !! Store.storeId subject, storeRankings !! storeId with
        | Some subjectRankings, Some compRankings =>
            let adjustment := (totalAdjustment / Qc_of_Z 100)%Qc in
            let totalDiff :=
              fold_left
                (fun totalDiff cat =>
                   let subjectVal := JS.num_or (subjectRankings !! cat) (Qc_of_Z 5) in
                   let compVal := JS.num_or (compRankings !! cat) (Qc_of_Z 5) in
                   (totalDiff + (subjectVal - compVal))%Qc)
                rankingCategories 0%Qc in
            (adjustment
             + totalDiff / Qc_of_Z (Z.of_nat (length rankingCategories))
               * Q2Qc (1 # 100))%Qc
        | _, _ => (totalAdjustment / Qc_of_Z 100)%Qc
        end
  end.

Definition normalizeSize (size : string) : string :=
  JS.remove (Ascii.eqb "'") (JS.remove JS.is_space (JS.toLowerCase size)).

Definition allowedSizes : gset string :=
  list_to_set (normalizeSize <$> selectedSizes).

(** The body of [rateRecords.forEach]: one record added to [groups]. *)
Definition addRecord (groups : list (string * list (Z * list RateRecord.t)))
    (record : RateRecord.t) : list (string * list (Z * list RateRecord.t)) :=
  let size := JS.str_or (RateRecord.size record) EmptyString in
  let normalizedSize := normalizeSize size in
  if negb (bool_decide (normalizedSize ∈ allowedSizes)) then groups
  else
    let featureCode := getFeatureCode record in
    let groupKey := size ++ "|" ++ featureCode in
    JS.upsert groupKey
      (JS.upsert (RateRecord.storeId record) (fun l => (l ++ [record])%list) [])
      [] groups.

Definition groups : list (string * list (Z * list RateRecord.t)) :=
  fold_left addRecord rateRecords [].

Definition calcAverages (records : list RateRecord.t) (startDate : Z) : Avg.t :=
  let filtered :=
    List.filter
      (fun r => match RateRecord.date r with
                | Some date => startDate <=? date
                | None => false
                end) records in
  let walkIn :=
    List.map (fun r => default 0%Qc (RateRecord.walkInPrice r))
      (List.filter (fun r => JS.truthy (RateRecord.walkInPrice r)) filtered) in
  let online :=
    List.map (fun r => default 0%Qc (RateRecord.onlinePrice r))
      (List.filter (fun r => JS.truthy (RateRecord.onlinePrice r)) filtered) in
  {| Avg.inStore :=
       if (0 <? length walkIn)%nat
       then Some (JS.sum walkIn / Qc_of_Z (Z.of_nat (length walkIn)))%Qc
       else None;
     Avg.asking :=
       if (0 <? length online)%nat
       then Some (JS.sum online / Qc_of_Z (Z.of_nat (length online)))%Qc
       else None |}.

(** [parseSize]; [parseFloat] never throws, so the [catch] is dead. *)
Definition parseSize (sizeStr : string) : option Qc :=
  let parts :=
    JS.split_ws
      (JS.remove (Ascii.eqb "'")
         (JS.replace (Ascii.eqb "x") " " (JS.toLowerCase sizeStr))) in
  if (2 <=? length parts)%nat
  then JS.mul (JS.parseFloat (nth 0 parts EmptyString))
              (JS.parseFloat (nth 1 parts EmptyString))
  else Some (JS.num_or (JS.parseFloat (nth 0 parts EmptyString)) 0).

(** One element of [storeData]. *)
Definition storeRow (storeId : Z) (records : list RateRecord.t) : Row.t :=
  let store := JS.find (fun s => Store.storeId s =? storeId) selectedStores in
  let metadata := storeMetadata !! storeId in
  let adjustment := getStoreAdjustment storeId in
  let t12 := calcAverages records t12Start in
  let t6 := calcAverages records t6Start in
  let t3 := calcAverages records t3Start in
  let t1 := calcAverages records t1Start in
  {| Row.storeId := storeId;
     Row.storeName :=
       JS.str_or (customNames !! storeId)
         (JS.str_or (Store.storeName <$> store) "Unknown");
     Row.distance := JS.num_or (Store.distance <$> store) 0;
     Row.yearBuilt := JS.num_or_null (metadata ≫= StoreMetadata.yearBuilt);
     Row.squareFootage := JS.num_or_null (metadata ≫= StoreMetadata.squareFootage);
     Row.isSubject :=
       match subjectStore with
       | Some subject => bool_decide (Store.storeId subject = storeId)
       | None => false
       end;
     Row.t12Asking := Avg.asking t12;
     Row.t12AskingAdj :=
       if JS.truthy (Avg.asking t12)
       then JS.mul (Avg.asking t12) (Some (1 + adjustment)%Qc) else None;
     Row.t12InStore := Avg.inStore t12;
     Row.t6Asking := Avg.asking t6;
     Row.t6AskingAdj :=
       if JS.truthy (Avg.asking t6)
       then JS.mul (Avg.asking t6) (Some (1 + adjustment)%Qc) else None;
     Row.t6InStore := Avg.inStore t6;
     Row.t3Asking := Avg.asking t3;
     Row.t3AskingAdj :=
       if JS.truthy (Avg.asking t3)
       then JS.mul (Avg.asking t3) (Some (1 + adjustment)%Qc) else None;
     Row.t3InStore := Avg.inStore t3;
     Row.t1Asking := Avg.asking t1;
     Row.t1AskingAdj :=
       if JS.truthy (Avg.asking t1)
       then JS.mul (Avg.asking t1) (Some (1 + adjustment)%Qc) else None;
     Row.t1InStore := Avg.inStore t1;
     Row.adjustment := adjustment;
     Row.recordCount := length records |}.

(** The comparator of [storeData.sort]. *)
Definition rowCompare (a b : Row.t) : option Qc :=
  if Row.isSubject a then Some (Qc_of_Z (-1))
  else if Row.isSubject b then Some 1%Qc
  else Some (Row.distance a - Row.distance b)%Qc.

(** The comparator of [result.sort]. *)
Definition groupCompare (a b : GroupedData.t) : option Qc :=
  let sizeCompare :=
    JS.sub (parseSize (GroupedData.size a)) (parseSize (GroupedData.size b)) in
  if negb (bool_decide (sizeCompare = Some 0%Qc)) then sizeCompare
  else Some (Qc_of_Z (localeCompare (GroupedData.featureCode a)
                                     (GroupedData.featureCode b))).

(** The body of [Object.entries(groups).forEach]: the group pushed on
    [result]. *)
Definition buildGroup (totalRecords : nat)
    (entry : string * list (Z * list RateRecord.t)) : GroupedData.t :=
  let '(groupKey, storeRecords) := entry in
  let parts := JS.split "|" groupKey in
  let size := nth 0 parts EmptyString in
  let featureCode := nth 1 parts EmptyString in
  let storeData :=
    List.map (fun e => storeRow e.1 e.2) (JS.entries storeRecords) in
  let storeData := JS.sort rowCompare storeData in
  let allGroupRecords := concat (List.map snd (JS.entries storeRecords)) in
  let t12Avg := calcAverages allGroupRecords t12Start in
  let t6Avg := calcAverages allGroupRecords t6Start in
  let t3Avg := calcAverages allGroupRecords t3Start in
  let t1Avg := calcAverages allGroupRecords t1Start in
  let groupRecordCount := length allGroupRecords in
  let marketShare :=
    (Qc_of_Z (Z.of_nat groupRecordCount) / Qc_of_Z (Z.of_nat totalRecords)
     * Qc_of_Z 100)%Qc in
  {| GroupedData.size := size;
     GroupedData.featureCode := featureCode;
     GroupedData.stores := storeData;
     GroupedData.averages :=
       {| Averages.t12Asking := Avg.asking t12Avg;
          Averages.t12AskingAdj := None;
          Averages.t12InStore := Avg.inStore t12Avg;
          Averages.t6Asking := Avg.asking t6Avg;
          Averages.t6AskingAdj := None;
          Averages.t6InStore := Avg.inStore t6Avg;
          Averages.t3Asking := Avg.asking t3Avg;
          Averages.t3AskingAdj := None;
          Averages.t3InStore := Avg.inStore t3Avg;
          Averages.t1Asking := Avg.asking t1Avg;
          Averages.t1AskingAdj := None;
          Averages.t1InStore := Avg.inStore t1Avg |};
     GroupedData.marketShare := marketShare |}.

Definition groupedData : list GroupedData.t :=
  if (length rateRecords =? 0)%nat then []
  else
    let totalRecords := length rateRecords in
    let result := List.map (buildGroup totalRecords) groups in
    JS.sort groupCompare result.

(** The start of a window. *)
Definition startOf (w : window) : Z :=
  match w with T12 => t12Start | T6 => t6Start | T3 => t3Start | T1 => t1Start end.

(** Whether a record falls in the window that starts at [startDate]: the
    predicate of the first [filter] of [calcAverages]. *)
Definition inWindow (startDate : Z) (r : RateRecord.t) : bool :=
  match RateRecord.date r with
  | Some date => startDate <=? date
  | None => false
  end.

(** Whether a record passes the selected-size filter of [addRecord]. *)
Definition passesFilter (record : RateRecord.t) : bool :=
  bool_decide
    (normalizeSize (JS.str_or (RateRecord.size record) EmptyString) ∈ allowedSizes).

(** ** The wording of the specification, for comparison with the code *)

(** The two price types and their readings. *)
Inductive priceKind := Asking | InStore.

Definition priceOf (k : priceKind) (r : RateRecord.t) : option Qc :=
  match k with
  | Asking => RateRecord.onlinePrice r
  | InStore => RateRecord.walkInPrice r
  end.

Definition meanOf (k : priceKind) (a : Avg.t) : option Qc :=
  match k with Asking => Avg.asking a | InStore => Avg.inStore a end.

Definition rowMeanOf (k : priceKind) (w : window) (r : Row.t) : option Qc :=
  match k with Asking => askingOf w r | InStore => inStoreOf w r end.

(** Access part of the tag: drive-up beats elevator beats outdoor beats
    ground level. *)
Definition accessPart_spec (driveUp elevator outdoorAccess : bool) : string :=
  match driveUp, elevator, outdoorAccess with
  | true, _, _ => "Drive-Up"
  | false, true, _ => "Elevator"
  | false, false, true => "Outdoor"
  | false, false, false => "Ground Level"
  end.

(** Climate part of the tag: climate beats humidity beats non-climate. *)
Definition climatePart_spec (climateControlled humidityControlled : bool) : string :=
  match climateControlled, humidityControlled with
  | true, _ => "Climate Controlled"
  | false, true => "Humidity Controlled"
  | false, false => "Non-Climate"
  end.

(** The fallback table. *)
Definition fallback_spec (driveUp elevator climateControlled : bool) : string :=
  match driveUp, elevator, climateControlled with
  | true, _, true => "DUCC"
  | true, _, false => "DU"
  | false, true, true => "ECC"
  | false, true, false => "ENCC"
  | false, false, true => "GLCC"
  | false, false, false => "GNCC"
  end.

(** The flat base adjustment: the three components, an absent one
    counting for nothing, summed and divided by 100. *)
Definition baseAdjustment_spec : Qc :=
  ((default 0 (AdjustmentFactors.captiveMarketPremium adjustmentFactors)
    + default 0 (AdjustmentFactors.lossToLease adjustmentFactors)
    + default 0 (AdjustmentFactors.ccAdj adjustmentFactors)) / Qc_of_Z 100)%Qc.

(** A category score with a missing score defaulting to 5. *)
Definition score_spec (rankings : StoreRankings) (cat : string) : Qc :=
  default (Qc_of_Z 5) (rankings !! cat).

(** The average over the eight categories of [f]. *)
Definition average8 (f : string -> Qc) : Qc :=
  ((f "Location" + f "Age" + f "Accessibility" + f "VPD"
    + f "Visibility & Signage" + f "Brand" + f "Quality" + f "Size")
   / Qc_of_Z 8)%Qc.

(** The per-store adjustment as the specification words it, for a
    selected subject store. *)
Definition getStoreAdjustment_spec (subject : Store.t) (storeId : Z) : Qc :=
  if decide (storeId = Store.storeId subject) then 0%Qc
  else
    match storeRankings !! Store.storeId subject, storeRankings !! storeId with
    | Some sr, Some cr =>
        (baseAdjustment_spec
         + Q2Qc (1 # 100)
           * average8 (fun cat => score_spec sr cat - score_spec cr cat))%Qc
    | _, _ => baseAdjustment_spec
    end.

(** Adjusted asking as the specification words it: the mean times
    (1 + adjustment), no value in, no value out. *)
Definition adjustedAsking_spec (asking : option Qc) (adjustment : Qc) : option Qc :=
  match asking with
  | Some a => Some (a * (1 + adjustment))%Qc
  | None => None
  end.

(** A price of 0 read as an absent price. *)
Definition zeroAsAbsent (x : option Qc) : option Qc :=
  match x with
  | Some q => if decide (q = 0%Qc) then None else Some q
  | None => None
  end.

Definition zerosAbsent (r : RateRecord.t) : RateRecord.t :=
  {| RateRecord.storeId := RateRecord.storeId r;
     RateRecord.size := RateRecord.size r;
     RateRecord.driveUp := RateRecord.driveUp r;
     RateRecord.elevator := RateRecord.elevator r;
     RateRecord.outdoorAccess := RateRecord.outdoorAccess r;
     RateRecord.climateControlled := RateRecord.climateControlled r;
     RateRecord.humidityControlled := RateRecord.humidityControlled r;
     RateRecord.date := RateRecord.date r;
     RateRecord.walkInPrice := zeroAsAbsent (RateRecord.walkInPrice r);
     RateRecord.onlinePrice := zeroAsAbsent (RateRecord.onlinePrice r) |}.

(** Non-decreasing distance between consecutive rows. *)
Definition distLe (a b : Row.t) : Prop := (Row.distance a <= Row.distance b)%Qc.

(** The order [rowCompare] decides: a subject row before every row, the
    other rows by distance. *)
Definition rowLe (a b : Row.t) : Prop :=
  Row.isSubject a = true \/ (Row.isSubject b = false /\ distLe a b).

(** The number of observations of a group: the record counts of its rows. *)
Definition groupCount (g : GroupedData.t) : nat :=
  list_sum (List.map Row.recordCount (GroupedData.stores g)).

(** The number of observations of a whole report. *)
Definition reportCount (report : list GroupedData.t) : nat :=
  list_sum (List.map groupCount report).

(** [count] out of [total], as a percentage. *)
Definition share (count total : nat) : Qc :=
  (Qc_of_Z (Z.of_nat count) / Qc_of_Z (Z.of_nat total) * Qc_of_Z 100)%Qc.


(** The number of records held by a record table, and by all of them. *)
Definition tableSize (storeRecords : list (Z * list RateRecord.t)) : nat :=
  list_sum (List.map (fun e => length e.2) storeRecords).

Definition groupsSize (gs : list (string * list (Z * list RateRecord.t))) : nat :=
  list_sum (List.map (fun e => tableSize e.2) gs).

(** The order [groupCompare] decides on groups whose size labels parse to
    a number: by area, then by the collation of the feature codes. *)
Definition groupLe (a b : GroupedData.t) : Prop :=
  exists x y,
    parseSize (GroupedData.size a) = Some x
    /\ parseSize (GroupedData.size b) = Some y
    /\ ((x < y)%Qc
        \/ (x = y /\ localeCompare (GroupedData.featureCode a)
                                   (GroupedData.featureCode b) <= 0)).

(** The key [addRecord] files a record under. *)
Definition groupKeyOf (record : RateRecord.t) : string :=
  JS.str_or (RateRecord.size record) EmptyString ++ "|" ++ getFeatureCode record.

(** The records filed under a group key and a store, none when there is
    no such entry. *)
Definition recordsOf (gs : list (string * list (Z * list RateRecord.t)))
    (key : string) (storeId : Z) : list RateRecord.t :=
  match getProp key gs with
  | Some table => default [] (getProp storeId table)
  | None => []
  end.

(** Whether a record passes the filter and belongs to a group key and a
    store. *)
Definition selects (key : string) (storeId : Z) (r : RateRecord.t) : bool :=
  passesFilter r && String.eqb (groupKeyOf r) key
  && (RateRecord.storeId r =? storeId).

Definition groupMeanOf (k : priceKind) (w : window) (a : Averages.t) : option Qc :=
  match k with Asking => groupAskingOf w a | InStore => groupInStoreOf w a end.

(** No record table and no record list is empty. *)
Definition populated (gs : list (string * list (Z * list RateRecord.t))) : Prop :=
  Forall (fun e => e.2 <> [] /\ Forall (fun t => t.2 <> []) e.2) gs.

(** The prices of one type that [calcAverages] averages: those of the
    records in the window whose price is truthy. *)
Definition pricesIn (k : priceKind) (startDate : Z) (records : list RateRecord.t)
    : list Qc :=
  List.map (fun r => default 0%Qc (priceOf k r))
    (List.filter (fun r => JS.truthy (priceOf k r))
       (List.filter (inWindow startDate) records)).

(** ** Facts about the JavaScript primitives *)

Lemma find_none {A} (p : A -> bool) (l : list A) :
  JS.find p l = None <-> (forall x, In x l -> p x = false).
Proof.
  induction l as [|a l IH]; simpl.
  - split; [intros _ x [] | reflexivity].
  - destruct (p a) eqn:Ha.
    + split; [discriminate|]. intros H. specialize (H a (or_introl eq_refl)). congruence.
    + rewrite IH. split.
      * intros H x [<-|Hx]; auto.
      * intros H x Hx. apply H. now right.
Qed.

Lemma insert_perm {A} (cmp : A -> A -> option Qc) x l :
  Permutation (JS.insert cmp x l) (x :: l).
Proof.
  induction l as [|y l IH]; simpl; [reflexivity|].
  destruct (JS.after cmp x y); [|reflexivity].
  rewrite IH. apply perm_swap.
Qed.

Lemma sort_perm {A} (cmp : A -> A -> option Qc) l :
  Permutation (JS.sort cmp l) l.
Proof.
  induction l as [|x l IH]; simpl; [reflexivity|].
  unfold JS.sort in *. simpl. rewrite insert_perm. now constructor.
Qed.

Lemma sort_In {A} (cmp : A -> A -> option Qc) l x :
  In x (JS.sort cmp l) <-> In x l.
Proof.
  split; apply Permutation_in; [|symmetry]; apply sort_perm.
Qed.

(** A comparator that decides a total relation [R] on the elements that
    satisfy [P] sorts the lists of such elements by it. *)
Section SortSorted.
Context {A : Type} (cmp : A -> A -> option Qc) (R : A -> A -> Prop) (P : A -> Prop).
Context (R_before : forall x y, P x -> P y -> JS.after cmp x y = false -> R x y)
        (R_after : forall x y, P x -> P y -> JS.after cmp x y = true -> R y x).

Lemma insert_hd x y l :
  R y x -> HdRel R y l -> HdRel R y (JS.insert cmp x l).
Proof.
  intros Hyx Hl. destruct l as [|z l]; simpl.
  - now constructor.
  - destruct (JS.after cmp x z); constructor; auto. now inversion Hl.
Qed.

Lemma insert_sorted x l :
  P x -> Forall P l -> Sorted R l -> Sorted R (JS.insert cmp x l).
Proof.
  intros Hx Hl Hs. induction Hs as [|y l Hs IH Hy]; simpl.
  - repeat constructor.
  - inversion Hl as [|? ? Hpy Hpl]; subst.
    destruct (JS.after cmp x y) eqn:E.
    + constructor; [now apply IH|]. apply insert_hd; auto.
    + constructor; [now constructor|]. constructor. auto.
Qed.

Lemma sort_sorted_on l : Forall P l -> Sorted R (JS.sort cmp l).
Proof.
  induction 1 as [|x l Hx Hl IH]; [constructor|].
  unfold JS.sort in *. simpl. apply insert_sorted; [exact Hx| |exact IH].
  eapply Permutation_Forall; [|exact Hl]. symmetry. apply sort_perm.
Qed.
End SortSorted.

Lemma sort_sorted {A} (cmp : A -> A -> option Qc) (R : A -> A -> Prop) :
  (forall x y, JS.after cmp x y = false -> R x y) ->
  (forall x y, JS.after cmp x y = true -> R y x) ->
  forall l, Sorted R (JS.sort cmp l).
Proof.
  intros Hb Ha l. apply (sort_sorted_on cmp R (fun _ => True)); auto.
  apply List.Forall_forall. auto.
Qed.

(** ** Feature codes *)

(** C4. The tag is a function of the five flags alone: the access part
    picked by the chain drive-up, elevator, outdoor, ground level, the
    climate part by the chain climate, humidity, non-climate, joined by
    " / ", for each of the 32 combinations of flags. *)
Theorem getFeatureTag_priority (record : RateRecord.t) :
  getFeatureTag record =
    accessPart_spec (RateRecord.driveUp record) (RateRecord.elevator record)
                    (RateRecord.outdoorAccess record)
    ++ " / "
    ++ climatePart_spec (RateRecord.climateControlled record)
                        (RateRecord.humidityControlled record).
Proof.
  unfold getFeatureTag.
  destruct record as [sid sz du el out cc hc d wp op]; simpl.
  destruct du, el, out, cc, hc; reflexivity.
Qed.

(** C5. When no entry of the FeatureCode list has the record's tag, the
    code is read off the fallback table from drive-up, elevator and
    climate-controlled alone. *)
Theorem getFeatureCode_fallback (record : RateRecord.t) :
  (forall f, In f featureCodes ->
             FeatureCode.originalTag f <> getFeatureTag record) ->
  getFeatureCode record =
    fallback_spec (RateRecord.driveUp record) (RateRecord.elevator record)
                  (RateRecord.climateControlled record).
Proof.
  intros Hno. unfold getFeatureCode.
  replace (JS.find _ featureCodes) with (@None FeatureCode.t).
  - destruct (RateRecord.driveUp record), (RateRecord.elevator record),
      (RateRecord.climateControlled record); reflexivity.
  - symmetry. apply find_none. intros f Hf.
    apply String.eqb_neq. now apply Hno.
Qed.

(** ** The per-store adjustment *)

Lemma num_or_zero (x : option Qc) : JS.num_or x 0%Qc = default 0%Qc x.
Proof.
  destruct x as [q|]; simpl; [|reflexivity].
  destruct (decide (q = 0%Qc)); congruence.
Qed.

Lemma totalAdjustment_base :
  (totalAdjustment / Qc_of_Z 100)%Qc = baseAdjustment_spec.
Proof.
  unfold totalAdjustment, baseAdjustment_spec. now rewrite !num_or_zero.
Qed.

(** C2 (amended). With no subject store selected every store's factor is
    0.  With a subject store: the factor is 0 for the subject; it is the
    flat base adjustment when the subject's or the store's rankings
    record is absent; otherwise it is the base adjustment plus 0.01 times
    the average over the eight categories of (subject's score minus the
    store's score), a score that is missing or 0 counting as 5. *)
Theorem getStoreAdjustment_cases (storeId : Z) :
  match subjectStore with
  | None => getStoreAdjustment storeId = 0%Qc
  | Some subject =>
      if decide (storeId = Store.storeId subject)
      then getStoreAdjustment storeId = 0%Qc
      else
        match storeRankings !! Store.storeId subject, storeRankings !! storeId with
        | Some sr, Some cr =>
            getStoreAdjustment storeId =
              (baseAdjustment_spec
               + Q2Qc (1 # 100)
                 * average8 (fun cat => JS.num_or (sr !! cat) (Qc_of_Z 5)
                                        - JS.num_or (cr !! cat) (Qc_of_Z 5)))%Qc
        | _, _ => getStoreAdjustment storeId = baseAdjustment_spec
        end
  end.
Proof.
  unfold getStoreAdjustment.
  destruct subjectStore as [subject|]; [|reflexivity].
  destruct (decide (storeId = Store.storeId subject)); [reflexivity|].
  destruct (storeRankings !! Store.storeId subject) as [sr|];
    [|apply totalAdjustment_base].
  destruct (storeRankings !! storeId) as [cr|];
    [|apply totalAdjustment_base].
  rewrite totalAdjustment_base. unfold average8, rankingCategories. simpl.
  change (Qc_of_Z (Z.of_nat 8)) with (Qc_of_Z 8).
  field. discriminate.
Qed.


(** ** Window averages *)

Lemma calcAverages_mean (k : priceKind) records startDate :
  meanOf k (calcAverages records startDate) =
    let prices :=
      List.map (fun r => default 0%Qc (priceOf k r))
        (List.filter (fun r => JS.truthy (priceOf k r))
           (List.filter (inWindow startDate) records)) in
    if (0 <? length prices)%nat
    then Some (JS.sum prices / Qc_of_Z (Z.of_nat (length prices)))%Qc
    else None.
Proof. destruct k; reflexivity. Qed.

Lemma filter_nil_iff {A} (p : A -> bool) (l : list A) :
  List.filter p l = [] <-> (forall x, In x l -> p x = false).
Proof.
  induction l as [|a l IH]; simpl.
  - split; [intros _ x [] | reflexivity].
  - destruct (p a) eqn:Ha.
    + split; [discriminate|]. intros H. specialize (H a (or_introl eq_refl)). congruence.
    + rewrite IH. split.
      * intros H x [<-|Hx]; auto.
      * intros H x Hx. apply H. now right.
Qed.

Lemma calcAverages_none (k : priceKind) records startDate :
  (forall r, In r records -> inWindow startDate r = true ->
             JS.truthy (priceOf k r) = false) ->
  meanOf k (calcAverages records startDate) = None.
Proof.
  intros H. rewrite calcAverages_mean. cbv zeta.
  replace (List.filter (fun r => JS.truthy (priceOf k r)) _) with (@nil RateRecord.t).
  - reflexivity.
  - symmetry. apply filter_nil_iff. intros r Hr.
    apply filter_In in Hr as [Hr Hw]. now apply H.
Qed.

Lemma storeRow_mean (k : priceKind) (w : window) storeId records :
  rowMeanOf k w (storeRow storeId records) =
    meanOf k (calcAverages records (startOf w)).
Proof. destruct k, w; reflexivity. Qed.

(** C7. For a store within a group, a window and a price type (asking or
    in-store): when no record of the store in the window carries a price of
    that type, the mean of the row is "no value". *)
Theorem mean_of_no_samples (k : priceKind) (w : window) (storeId : Z)
    (records : list RateRecord.t) :
  (forall r, In r records -> inWindow (startOf w) r = true -> priceOf k r = None) ->
  rowMeanOf k w (storeRow storeId records) = None.
Proof.
  intros H. rewrite storeRow_mean. apply calcAverages_none.
  intros r Hr Hw. now rewrite (H r Hr Hw).
Qed.

Lemma truthy_zeroAsAbsent (x : option Qc) :
  JS.truthy (zeroAsAbsent x) = JS.truthy x.
Proof.
  destruct x as [q|]; simpl; [|reflexivity].
  destruct (decide (q = 0%Qc)) as [->|Hq]; simpl; [reflexivity|].
  destruct (decide (q = 0%Qc)); congruence.
Qed.

Lemma default_zeroAsAbsent (x : option Qc) :
  default 0%Qc (zeroAsAbsent x) = default 0%Qc x.
Proof.
  destruct x as [q|]; simpl; [|reflexivity].
  destruct (decide (q = 0%Qc)) as [->|Hq]; reflexivity.
Qed.

Lemma priceOf_zerosAbsent (k : priceKind) r :
  priceOf k (zerosAbsent r) = zeroAsAbsent (priceOf k r).
Proof. destruct k; reflexivity. Qed.

Lemma filter_map_comm {A B} (f : A -> B) (p : B -> bool) (l : list A) :
  List.filter p (List.map f l) = List.map f (List.filter (fun x => p (f x)) l).
Proof.
  induction l as [|a l IH]; simpl; [reflexivity|].
  destruct (p (f a)); simpl; now rewrite IH.
Qed.

Lemma calcAverages_zerosAbsent_mean (k : priceKind) records startDate :
  meanOf k (calcAverages (List.map zerosAbsent records) startDate) =
    meanOf k (calcAverages records startDate).
Proof.
  rewrite !calcAverages_mean. cbv zeta.
  rewrite !filter_map_comm, List.map_map.
  replace (List.filter (fun x => inWindow startDate (zerosAbsent x)) records)
    with (List.filter (inWindow startDate) records)
    by (apply List.filter_ext; now intros []).
  erewrite List.filter_ext
    by (intros r; rewrite priceOf_zerosAbsent; apply truthy_zeroAsAbsent).
  erewrite List.map_ext
    by (intros r; rewrite priceOf_zerosAbsent; apply default_zeroAsAbsent).
  reflexivity.
Qed.

(** C9. A price equal to 0 is treated as an absent price: turning every
    zero price of every record into an absent one leaves both means of
    every window unchanged, and records whose prices in the window are all
    0 or absent give "no value". *)
Theorem zero_price_is_absent (records : list RateRecord.t) (startDate : Z) :
  calcAverages (List.map zerosAbsent records) startDate
    = calcAverages records startDate
  /\ forall k : priceKind,
       (forall r, In r records -> inWindow startDate r = true ->
                  priceOf k r = None \/ priceOf k r = Some 0%Qc) ->
       meanOf k (calcAverages records startDate) = None.
Proof.
  split.
  - pose proof (calcAverages_zerosAbsent_mean Asking records startDate) as Ha.
    pose proof (calcAverages_zerosAbsent_mean InStore records startDate) as Hi.
    unfold meanOf in Ha, Hi.
    destruct (calcAverages (List.map zerosAbsent records) startDate),
      (calcAverages records startDate); simpl in *; congruence.
  - intros k H. apply calcAverages_none. intros r Hr Hw.
    destruct (H r Hr Hw) as [-> | ->]; reflexivity.
Qed.

(** ** The shape of the report *)

Lemma groupedData_In g :
  In g groupedData ->
  exists entry, In entry groups /\ g = buildGroup (length rateRecords) entry.
Proof.
  unfold groupedData. destruct (length rateRecords =? 0)%nat; [intros []|].
  intros Hg. apply sort_In, in_map_iff in Hg as (entry & <- & He). eauto.
Qed.

Lemma buildGroup_stores n key storeRecords :
  GroupedData.stores (buildGroup n (key, storeRecords)) =
    JS.sort rowCompare
      (List.map (fun e => storeRow e.1 e.2) (JS.entries storeRecords)).
Proof. reflexivity. Qed.

Lemma buildGroup_rows n entry r :
  In r (GroupedData.stores (buildGroup n entry)) ->
  exists storeId records,
    In (storeId, records) (JS.entries entry.2) /\ r = storeRow storeId records.
Proof.
  destruct entry as [key storeRecords]. rewrite buildGroup_stores.
  intros Hr. apply sort_In, in_map_iff in Hr as ([k v] & <- & He). eauto.
Qed.

Lemma report_rows g r :
  In g groupedData -> In r (GroupedData.stores g) ->
  exists storeId records, r = storeRow storeId records.
Proof.
  intros Hg Hr. apply groupedData_In in Hg as (entry & _ & ->).
  apply buildGroup_rows in Hr as (k & v & _ & ->). eauto.
Qed.

(** ** Adjusted asking *)

Lemma adjusted_expr (a : option Qc) (adjustment : Qc) :
  (if JS.truthy a then JS.mul a (Some (1 + adjustment)%Qc) else None) =
    match a with
    | Some m => if decide (m = 0%Qc) then None else Some (m * (1 + adjustment))%Qc
    | None => None
    end.
Proof.
  destruct a as [m|]; simpl; [|reflexivity].
  destruct (decide (m = 0%Qc)); reflexivity.
Qed.

Lemma storeRow_adjusted (w : window) storeId records :
  askingAdjOf w (storeRow storeId records) =
    match askingOf w (storeRow storeId records) with
    | Some m =>
        if decide (m = 0%Qc) then None
        else Some (m * (1 + getStoreAdjustment storeId))%Qc
    | None => None
    end.
Proof. destruct w; apply adjusted_expr. Qed.

(** The adjusted figure of a row as the source computes it, whatever the
    prices: the truthiness test on the mean takes a mean equal to 0 for
    "no value" too. *)
Lemma adjusted_asking_of_rows (g : GroupedData.t) (r : Row.t) (w : window) :
  In g groupedData -> In r (GroupedData.stores g) ->
  Row.adjustment r = getStoreAdjustment (Row.storeId r)
  /\ askingAdjOf w r =
       match askingOf w r with
       | Some m =>
           if decide (m = 0%Qc) then None
           else Some (m * (1 + Row.adjustment r))%Qc
       | None => None
       end.
Proof.
  intros Hg Hr. destruct (report_rows g r Hg Hr) as (k & v & ->).
  split; [reflexivity|]. apply storeRow_adjusted.
Qed.

(** ** Row order within a group *)

Lemma rowCompare_before x y : JS.after rowCompare x y = false -> rowLe x y.
Proof.
  unfold JS.after, rowCompare, rowLe, distLe.
  destruct (Row.isSubject x); [now left|].
  destruct (Row.isSubject y).
  - intros H. apply bool_decide_eq_false in H. exfalso. apply H. reflexivity.
  - intros H. apply bool_decide_eq_false in H. right. split; [reflexivity|].
    apply Qcnot_lt_le. intros Hlt. apply H.
    now apply Qclt_minus_iff in Hlt.
Qed.

Lemma rowCompare_after x y : JS.after rowCompare x y = true -> rowLe y x.
Proof.
  unfold JS.after, rowCompare, rowLe, distLe.
  destruct (Row.isSubject x) eqn:Hx.
  - intros H. apply bool_decide_eq_true in H. discriminate H.
  - destruct (Row.isSubject y); [now left|].
    intros H. apply bool_decide_eq_true in H. right. split; [reflexivity|].
    apply Qclt_le_weak. now apply Qclt_minus_iff.
Qed.

Lemma rowLe_trans x y z : rowLe x y -> rowLe y z -> rowLe x z.
Proof.
  unfold rowLe, distLe. intros [Hx|[Hy Hxy]] Hyz; [now left|].
  destruct Hyz as [Hy'|[Hz Hyz]]; [congruence|].
  right. split; [assumption|]. eapply Qcle_trans; eassumption.
Qed.

Lemma rows_sorted n entry :
  StronglySorted rowLe (GroupedData.stores (buildGroup n entry)).
Proof.
  destruct entry as [key storeRecords]. rewrite buildGroup_stores.
  apply Sorted_StronglySorted; [exact rowLe_trans|].
  apply sort_sorted; [exact rowCompare_before | exact rowCompare_after].
Qed.

Lemma rowLe_distLe_sorted (l : list Row.t) :
  StronglySorted rowLe l -> Forall (fun x => Row.isSubject x = false) l ->
  Sorted distLe l.
Proof.
  induction 1 as [|x l Hl IH Hx]; intros Hall; [constructor|].
  inversion Hall as [|? ? Hxs Hls]; subst.
  constructor; [auto|].
  destruct l as [|y l]; constructor.
  inversion Hx as [|? ? Hxy _]; subst.
  destruct Hxy as [Hs|[_ Hd]]; [congruence|exact Hd].
Qed.

(** Keys of the record tables are pairwise distinct. *)

Lemma upsert_keys_In {K V} `{EqDecision K} (k : K) (f : V -> V) (d : V) o x :
  In x (List.map fst (JS.upsert k f d o)) <-> x = k \/ In x (List.map fst o).
Proof.
  induction o as [|[k' v] o IH]; simpl.
  - split; [intros [<-|[]]; now left | intros [->|[]]; now left].
  - destruct (decide (k' = k)) as [->|Hne]; simpl.
    + split; [intros [<-|Hx]; auto | intros [->|[<-|Hx]]; auto].
    + rewrite IH. split; [intros [<-|[->|Hx]]; auto | intros [->|[<-|Hx]]; auto].
Qed.

Lemma upsert_keys_NoDup {K V} `{EqDecision K} (k : K) (f : V -> V) (d : V) o :
  List.NoDup (List.map fst o) -> List.NoDup (List.map fst (JS.upsert k f d o)).
Proof.
  induction o as [|[k' v] o IH]; simpl; intros Hnd.
  - repeat constructor. intros [].
  - inversion Hnd as [|? ? Hnin Hnd']; subst.
    destruct (decide (k' = k)) as [->|Hne]; simpl; [now constructor|].
    constructor; [|now apply IH].
    rewrite upsert_keys_In. intros [->|Hin]; [now apply Hne|now apply Hnin].
Qed.

Lemma upsert_Forall {K V} `{EqDecision K} (P : V -> Prop) (k : K) (f : V -> V)
    (d : V) o :
  P (f d) -> (forall v, P v -> P (f v)) ->
  Forall (fun e => P e.2) o -> Forall (fun e => P e.2) (JS.upsert k f d o).
Proof.
  intros Hd Hf. induction 1 as [|[k' v] o Hv Ho IH]; simpl.
  - constructor; [exact Hd|constructor].
  - destruct (decide (k' = k)); constructor; simpl in *; auto.
Qed.

Lemma addRecord_keys_NoDup gs record :
  Forall (fun e => List.NoDup (List.map fst e.2)) gs ->
  Forall (fun e => List.NoDup (List.map fst e.2)) (addRecord gs record).
Proof.
  intros H. unfold addRecord.
  destruct (negb _); [assumption|].
  apply (upsert_Forall (fun sr => List.NoDup (List.map fst sr))); [| |assumption].
  - simpl. repeat constructor. intros [].
  - intros v. apply upsert_keys_NoDup.
Qed.

Lemma fold_addRecord_keys_NoDup records gs :
  Forall (fun e => List.NoDup (List.map fst e.2)) gs ->
  Forall (fun e => List.NoDup (List.map fst e.2)) (fold_left addRecord records gs).
Proof.
  revert gs. induction records as [|r records IH]; intros gs H; simpl; [assumption|].
  apply IH, addRecord_keys_NoDup, H.
Qed.

Lemma groups_keys_NoDup entry :
  In entry groups -> List.NoDup (List.map fst entry.2).
Proof.
  intros He.
  pose proof (fold_addRecord_keys_NoDup rateRecords [] (List.Forall_nil _)) as H.
  rewrite List.Forall_forall in H. exact (H entry He).
Qed.

Lemma filter_partition_perm {A} (p : A -> bool) (l : list A) :
  Permutation
    (filter (fun x => p x = true) l ++ filter (fun x => p x = false) l)%list l.
Proof.
  induction l as [|a l IH]; [reflexivity|].
  rewrite !filter_cons. destruct (p a) eqn:Ha.
  - rewrite decide_True by reflexivity. rewrite decide_False by discriminate.
    simpl. now constructor.
  - rewrite decide_False by discriminate. rewrite decide_True by reflexivity.
    rewrite <- Permutation_middle. now constructor.
Qed.

Lemma entries_perm {V} (o : list (Z * V)) : Permutation (JS.entries o) o.
Proof.
  unfold JS.entries. rewrite sort_perm.
  apply (filter_partition_perm (fun kv => JS.is_index kv.1)).
Qed.

Lemma entries_In {V} (o : list (Z * V)) e : In e (JS.entries o) <-> In e o.
Proof.
  split; apply Permutation_in; [|symmetry]; apply entries_perm.
Qed.

Lemma entries_keys_NoDup {V} (o : list (Z * V)) :
  List.NoDup (List.map fst o) -> List.NoDup (List.map fst (JS.entries o)).
Proof.
  apply Permutation_NoDup, Permutation_map. symmetry. apply entries_perm.
Qed.

Lemma NoDup_keys_functional {K V} (l : list (K * V)) k v1 v2 :
  List.NoDup (List.map fst l) -> In (k, v1) l -> In (k, v2) l -> v1 = v2.
Proof.
  induction l as [|[k' v'] l IH]; simpl; [intros _ []|].
  intros Hnd H1 H2. inversion Hnd as [|? ? Hnin Hnd']; subst.
  destruct H1 as [H1|H1], H2 as [H2|H2].
  - congruence.
  - inversion H1; subst. exfalso. apply Hnin.
    apply in_map_iff. now exists (k, v2).
  - inversion H2; subst. exfalso. apply Hnin.
    apply in_map_iff. now exists (k, v1).
  - now apply IH.
Qed.

Lemma storeRow_isSubject storeId records :
  Row.isSubject (storeRow storeId records) = true <->
  exists subject, subjectStore = Some subject /\ Store.storeId subject = storeId.
Proof.
  simpl. destruct subjectStore as [s|].
  - rewrite bool_decide_eq_true. split; [eauto|].
    intros (s' & Hs & <-). congruence.
  - split; [discriminate|]. intros (s' & Hs & _). discriminate.
Qed.

Lemma rows_storeId_NoDup n entry :
  In entry groups ->
  List.NoDup (List.map Row.storeId (GroupedData.stores (buildGroup n entry))).
Proof.
  intros He. pose proof (groups_keys_NoDup entry He) as Hnd.
  destruct entry as [key storeRecords]. rewrite buildGroup_stores.
  eapply Permutation_NoDup.
  - symmetry. apply Permutation_map, sort_perm.
  - rewrite List.map_map. simpl.
    now apply entries_keys_NoDup.
Qed.

Lemma subject_row_first n key storeRecords subject records :
  In (key, storeRecords) groups ->
  subjectStore = Some subject ->
  In (Store.storeId subject, records) storeRecords ->
  exists rest,
    GroupedData.stores (buildGroup n (key, storeRecords)) =
      storeRow (Store.storeId subject) records :: rest
    /\ Forall (fun x => Row.isSubject x = false) rest
    /\ Sorted distLe rest.
Proof.
  intros He Hsubj Hrec.
  pose proof (rows_sorted n (key, storeRecords)) as Hs.
  pose proof (rows_storeId_NoDup n _ He) as Hnd.
  pose proof (groups_keys_NoDup _ He) as Hkeys. simpl in Hkeys.
  assert (Hsid : forall y, In y (GroupedData.stores (buildGroup n (key, storeRecords))) ->
                 Row.isSubject y = true ->
                 y = storeRow (Store.storeId subject) records).
  { intros y Hy Hys. apply buildGroup_rows in Hy as (k & v & Hkv & ->).
    apply storeRow_isSubject in Hys as (s' & Hs' & <-).
    assert (s' = subject) as -> by congruence.
    f_equal.
    apply (NoDup_keys_functional (JS.entries storeRecords) (Store.storeId subject));
      [now apply entries_keys_NoDup | exact Hkv | now apply entries_In]. }
  assert (Hin : In (storeRow (Store.storeId subject) records)
                   (GroupedData.stores (buildGroup n (key, storeRecords)))).
  { rewrite buildGroup_stores. apply sort_In, in_map_iff.
    exists (Store.storeId subject, records). split; [reflexivity|].
    now apply entries_In. }
  assert (Hsub : Row.isSubject (storeRow (Store.storeId subject) records) = true).
  { apply storeRow_isSubject. eauto. }
  destruct (GroupedData.stores (buildGroup n (key, storeRecords))) as [|h rest];
    [destruct Hin|].
  inversion Hs as [|? ? Hrest Hh]; subst.
  assert (Hhs : Row.isSubject h = true).
  { destruct Hin as [->|Hin]; [exact Hsub|].
    rewrite List.Forall_forall in Hh.
    destruct (Hh _ Hin) as [?|[Hc _]]; [assumption|congruence]. }
  assert (h = storeRow (Store.storeId subject) records) as ->
    by (apply Hsid; [now left|exact Hhs]).
  assert (Hall : Forall (fun x => Row.isSubject x = false) rest).
  { apply List.Forall_forall. intros y Hy.
    destruct (Row.isSubject y) eqn:Hys; [|reflexivity].
    exfalso. simpl in Hnd. inversion Hnd as [|? ? Hnin _]; subst.
    apply Hnin. rewrite (Hsid y (or_intror Hy) Hys) in Hy.
    apply in_map_iff. eexists. split; [|exact Hy]. reflexivity. }
  exists rest. split; [reflexivity|]. split; [exact Hall|].
  now apply rowLe_distLe_sorted.
Qed.

Lemma no_subject_rows_sorted n key storeRecords :
  (forall subject, subjectStore = Some subject ->
                   ~ In (Store.storeId subject) (List.map fst storeRecords)) ->
  Sorted distLe (GroupedData.stores (buildGroup n (key, storeRecords))).
Proof.
  intros Hno. apply rowLe_distLe_sorted; [apply rows_sorted|].
  apply List.Forall_forall. intros y Hy.
  destruct (Row.isSubject y) eqn:Hys; [|reflexivity]. exfalso.
  apply buildGroup_rows in Hy as (k & v & Hkv & ->).
  apply storeRow_isSubject in Hys as (s & Hs & <-).
  apply (Hno s Hs). apply in_map_iff. exists (Store.storeId s, v).
  split; [reflexivity|]. exact (proj1 (entries_In _ _) Hkv).
Qed.

(** C8. Every group of the report is built from one record table of
    [groups] (store identifier to that store's records in the group).  When
    the subject store has records in the table, its row is the first row of
    the group, no other row is a subject row, and the rows after it are in
    non-decreasing order of distance; when it has none, all rows are in
    non-decreasing order of distance. *)
Theorem subject_first_then_distance (g : GroupedData.t) :
  In g groupedData ->
  exists key storeRecords,
    In (key, storeRecords) groups
    /\ g = buildGroup (length rateRecords) (key, storeRecords)
    /\ (forall subject records,
          subjectStore = Some subject ->
          In (Store.storeId subject, records) storeRecords ->
          exists rest,
            GroupedData.stores g = storeRow (Store.storeId subject) records :: rest
            /\ Forall (fun x => Row.isSubject x = false) rest
            /\ Sorted distLe rest)
    /\ ((forall subject, subjectStore = Some subject ->
           ~ In (Store.storeId subject) (List.map fst storeRecords)) ->
        Sorted distLe (GroupedData.stores g)).
Proof.
  intros Hg. apply groupedData_In in Hg as ([key storeRecords] & He & ->).
  exists key, storeRecords. split; [exact He|]. split; [reflexivity|]. split.
  - intros subject records Hs Hr. now apply subject_row_first.
  - apply no_subject_rows_sorted.
Qed.

(** ** Market share *)

Lemma list_sum_perm (l l' : list nat) :
  Permutation l l' -> list_sum l = list_sum l'.
Proof. induction 1; simpl; lia. Qed.

(** The number of records held by a record table. *)
Lemma tableSize_upsert {K V} `{EqDecision K} (m : V -> nat) (k : K) (f : V -> V)
    (d : V) o :
  m d = 0%nat -> (forall v, m (f v) = S (m v)) ->
  list_sum (List.map (fun e => m e.2) (JS.upsert k f d o)) =
    S (list_sum (List.map (fun e => m e.2) o)).
Proof.
  intros Hd Hf. induction o as [|[k' v] o IH]; simpl.
  - rewrite Hf, Hd. reflexivity.
  - destruct (decide (k' = k)); simpl; [rewrite Hf | rewrite IH]; lia.
Qed.

Lemma addRecord_size gs record :
  groupsSize (addRecord gs record) =
    (groupsSize gs + if passesFilter record then 1 else 0)%nat.
Proof.
  unfold addRecord, passesFilter.
  destruct (bool_decide _); simpl; [|lia].
  unfold groupsSize. rewrite (tableSize_upsert tableSize); [lia|reflexivity|].
  intros v. unfold tableSize.
  apply (tableSize_upsert (fun l : list RateRecord.t => length l)); [reflexivity|].
  intros l. rewrite length_app. simpl. lia.
Qed.

Lemma fold_addRecord_size records gs :
  groupsSize (fold_left addRecord records gs) =
    (groupsSize gs + length (List.filter passesFilter records))%nat.
Proof.
  revert gs. induction records as [|r records IH]; intros gs; simpl; [lia|].
  rewrite IH, addRecord_size. destruct (passesFilter r); simpl; lia.
Qed.

Lemma groups_size : groupsSize groups = length (List.filter passesFilter rateRecords).
Proof. unfold groups. now rewrite fold_addRecord_size. Qed.

Lemma buildGroup_count n entry :
  groupCount (buildGroup n entry) = tableSize entry.2.
Proof.
  destruct entry as [key storeRecords]. unfold groupCount.
  rewrite buildGroup_stores.
  rewrite (list_sum_perm _ _ (Permutation_map _ (sort_perm _ _))).
  rewrite List.map_map. simpl. unfold tableSize.
  apply list_sum_perm, (Permutation_map (fun e => length e.2)), entries_perm.
Qed.

Lemma allGroupRecords_length (storeRecords : list (Z * list RateRecord.t)) :
  length (concat (List.map snd (JS.entries storeRecords))) = tableSize storeRecords.
Proof.
  rewrite length_concat, List.map_map. unfold tableSize.
  apply list_sum_perm, (Permutation_map (fun e => length e.2)), entries_perm.
Qed.

Lemma buildGroup_share n entry :
  GroupedData.marketShare (buildGroup n entry) =
    share (groupCount (buildGroup n entry)) n.
Proof.
  rewrite buildGroup_count. destruct entry as [key storeRecords].
  change (GroupedData.marketShare (buildGroup n (key, storeRecords)))
    with (share (length (concat (List.map snd (JS.entries storeRecords)))) n).
  now rewrite allGroupRecords_length.
Qed.




Lemma reportCount_groupedData :
  reportCount groupedData = length (List.filter passesFilter rateRecords).
Proof.
  unfold groupedData. destruct rateRecords as [|r0 records] eqn:E; [reflexivity|].
  rewrite <- E. replace (length rateRecords =? 0)%nat with false
    by (rewrite E; reflexivity).
  cbv zeta. unfold reportCount.
  rewrite (list_sum_perm _ _ (Permutation_map _ (sort_perm _ _))).
  rewrite List.map_map. rewrite <- groups_size. unfold groupsSize.
  f_equal. apply List.map_ext. intros e. apply buildGroup_count.
Qed.




(** ** Group order *)

Lemma Qc_of_Z_pos (z : Z) : (0 < Qc_of_Z z)%Qc <-> 0 < z.
Proof. rewrite <- Z2Qc_inj_0. symmetry. apply Z2Qc_inj_lt. Qed.

Lemma Qcminus_zero (x y : Qc) : (x - y = 0)%Qc <-> x = y.
Proof.
  split; [|intros ->; ring].
  intros H. rewrite <- (Qcplus_0_l y), <- H. ring.
Qed.

Lemma groupCompare_before a b :
  is_Some (parseSize (GroupedData.size a)) ->
  is_Some (parseSize (GroupedData.size b)) ->
  JS.after groupCompare a b = false -> groupLe a b.
Proof.
  intros [x Hx] [y Hy]. unfold JS.after, groupCompare, groupLe.
  rewrite Hx, Hy. simpl. intros H. exists x, y. do 2 (split; [reflexivity|]).
  destruct (bool_decide (Some (x - y)%Qc = Some 0%Qc)) eqn:E; simpl in H.
  - apply bool_decide_eq_true in E. apply (inj Some) in E.
    apply (proj1 (Qcminus_zero _ _)) in E.
    right. split; [exact E|].
    apply bool_decide_eq_false in H. rewrite Qc_of_Z_pos in H. lia.
  - apply bool_decide_eq_false in E, H. left.
    destruct (Qcle_lt_or_eq x y) as [Hlt|Heq]; [|exact Hlt|].
    + apply Qcnot_lt_le. intros Hyx. apply H. now apply Qclt_minus_iff in Hyx.
    + exfalso. apply E. f_equal. now apply Qcminus_zero.
Qed.

Lemma groupCompare_after a b :
  (forall s t, 0 < localeCompare s t -> localeCompare t s <= 0) ->
  is_Some (parseSize (GroupedData.size a)) ->
  is_Some (parseSize (GroupedData.size b)) ->
  JS.after groupCompare a b = true -> groupLe b a.
Proof.
  intros Hlc [x Hx] [y Hy]. unfold JS.after, groupCompare, groupLe.
  rewrite Hx, Hy. simpl. intros H. exists y, x. do 2 (split; [reflexivity|]).
  destruct (bool_decide (Some (x - y)%Qc = Some 0%Qc)) eqn:E; simpl in H.
  - apply bool_decide_eq_true in E. apply (inj Some) in E.
    apply (proj1 (Qcminus_zero _ _)) in E.
    right. split; [now symmetry|].
    apply bool_decide_eq_true in H. rewrite Qc_of_Z_pos in H. now apply Hlc.
  - apply bool_decide_eq_true in H. left. now apply Qclt_minus_iff.
Qed.

(** When every size label of the report parses to a number and the
    collation never puts two codes each after the other, consecutive groups
    of the report are in ascending order of area, and of feature code
    within one area. *)
Lemma groupedData_sorted :
  (forall s t, 0 < localeCompare s t -> localeCompare t s <= 0) ->
  Forall (fun g => is_Some (parseSize (GroupedData.size g))) groupedData ->
  Sorted groupLe groupedData.
Proof.
  intros Hlc. unfold groupedData.
  destruct (length rateRecords =? 0)%nat; [constructor|]. cbv zeta.
  intros Hall.
  apply (sort_sorted_on groupCompare groupLe
           (fun g => is_Some (parseSize (GroupedData.size g)))).
  - exact groupCompare_before.
  - intros x y. now apply groupCompare_after.
  - eapply Permutation_Forall; [|exact Hall]. apply sort_perm.
Qed.

(** ** What the groups hold *)

Lemma getProp_upsert {K V} `{EqDecision K} (k k0 : K) (f : V -> V) (d : V) o :
  getProp k (JS.upsert k0 f d o) =
    if decide (k = k0) then Some (f (default d (getProp k0 o)))
    else getProp k o.
Proof.
  induction o as [|[k' v] o IH]; simpl.
  - destruct (decide (k0 = k)), (decide (k = k0)); congruence.
  - destruct (decide (k' = k0)) as [->|Hne]; simpl.
    + destruct (decide (k0 = k)), (decide (k = k0)); congruence.
    + rewrite IH. destruct (decide (k' = k)), (decide (k = k0)); congruence.
Qed.

Lemma getProp_In {K V} `{EqDecision K} (k : K) (v : V) o :
  getProp k o = Some v -> In (k, v) o.
Proof.
  induction o as [|[k' v'] o IH]; simpl; [discriminate|].
  destruct (decide (k' = k)) as [->|]; [intros [= ->]; now left|].
  intros H. right. now apply IH.
Qed.

Lemma In_getProp {K V} `{EqDecision K} (k : K) (v : V) o :
  List.NoDup (List.map fst o) -> In (k, v) o -> getProp k o = Some v.
Proof.
  induction o as [|[k' v'] o IH]; simpl; [intros _ []|].
  intros Hnd Hin. inversion Hnd as [|? ? Hnin Hnd']; subst.
  destruct Hin as [[= -> ->]|Hin].
  - now destruct (decide (k = k)).
  - destruct (decide (k' = k)) as [->|]; [|now apply IH].
    exfalso. apply Hnin. apply in_map_iff. now exists (k, v).
Qed.

Lemma recordsOf_addRecord gs record key storeId :
  recordsOf (addRecord gs record) key storeId =
    (recordsOf gs key storeId
     ++ if selects key storeId record then [record] else [])%list.
Proof.
  unfold addRecord, selects, passesFilter, recordsOf, groupKeyOf.
  destruct (bool_decide _); simpl; [|now rewrite app_nil_r].
  rewrite getProp_upsert.
  destruct (String.eqb_spec
              (JS.str_or (RateRecord.size record) EmptyString ++ "|"
               ++ getFeatureCode record) key) as [Hk|Hk].
  - rewrite decide_True by now symmetry. rewrite getProp_upsert.
    destruct (Z.eqb_spec (RateRecord.storeId record) storeId) as [Hs|Hs].
    + rewrite decide_True by now symmetry. subst. simpl.
      destruct (getProp _ gs) as [table|]; simpl; [|reflexivity].
      now destruct (getProp _ table).
    + rewrite decide_False by congruence. subst. simpl. rewrite app_nil_r.
      now destruct (getProp _ gs).
  - rewrite decide_False by congruence. simpl. now rewrite app_nil_r.
Qed.

Lemma recordsOf_fold records gs key storeId :
  recordsOf (fold_left addRecord records gs) key storeId =
    (recordsOf gs key storeId ++ List.filter (selects key storeId) records)%list.
Proof.
  revert gs. induction records as [|r records IH]; intros gs; simpl.
  - now rewrite app_nil_r.
  - rewrite IH, recordsOf_addRecord, <- app_assoc.
    now destruct (selects key storeId r).
Qed.

Lemma recordsOf_groups key storeId :
  recordsOf groups key storeId = List.filter (selects key storeId) rateRecords.
Proof. unfold groups. now rewrite recordsOf_fold. Qed.

Lemma groups_outer_NoDup : List.NoDup (List.map fst groups).
Proof.
  unfold groups. generalize (List.NoDup_nil string).
  change (@nil string)
    with (List.map fst (@nil (string * list (Z * list RateRecord.t)))).
  generalize (@nil (string * list (Z * list RateRecord.t))) as gs.
  induction rateRecords as [|r records IH]; intros gs H; simpl; [exact H|].
  apply IH. unfold addRecord. destruct (negb _); [exact H|].
  now apply upsert_keys_NoDup.
Qed.

Lemma upsert_nonempty {K V} `{EqDecision K} (k : K) (f : V -> V) (d : V) o :
  JS.upsert k f d o <> [].
Proof.
  destruct o as [|[k' v] o]; simpl; [discriminate|].
  destruct (decide (k' = k)); discriminate.
Qed.

Lemma addRecord_populated gs record :
  populated gs -> populated (addRecord gs record).
Proof.
  unfold populated, addRecord. intros H. destruct (negb _); [exact H|].
  apply (upsert_Forall
           (fun table : list (Z * list RateRecord.t) =>
              table <> [] /\ Forall (fun t => t.2 <> []) table)); [| |exact H].
  - split; [apply upsert_nonempty|].
    simpl. constructor; [discriminate|constructor].
  - intros table [_ Ht]. split; [apply upsert_nonempty|].
    apply (upsert_Forall (fun l : list RateRecord.t => l <> [])); [| |exact Ht].
    + discriminate.
    + intros l _. now destruct l.
Qed.

Lemma groups_populated : populated groups.
Proof.
  unfold groups. assert (H : populated []) by constructor.
  revert H. generalize (@nil (string * list (Z * list RateRecord.t))) as gs.
  induction rateRecords as [|r records IH]; intros gs H; simpl; [exact H|].
  now apply IH, addRecord_populated.
Qed.

Lemma groups_entry key table storeId records :
  In (key, table) groups -> In (storeId, records) table ->
  records = List.filter (selects key storeId) rateRecords /\ records <> [].
Proof.
  intros Hg Ht. split.
  - rewrite <- recordsOf_groups. unfold recordsOf.
    rewrite (In_getProp key table groups groups_outer_NoDup Hg).
    rewrite (In_getProp storeId records table (groups_keys_NoDup _ Hg) Ht).
    reflexivity.
  - pose proof groups_populated as Hp. unfold populated in Hp.
    rewrite List.Forall_forall in Hp. destruct (Hp _ Hg) as [_ Hrows].
    rewrite List.Forall_forall in Hrows. exact (Hrows _ Ht).
Qed.

Lemma groupedData_built entry :
  rateRecords <> [] -> In entry groups ->
  In (buildGroup (length rateRecords) entry) groupedData.
Proof.
  intros Hne He. unfold groupedData.
  destruct rateRecords as [|r0 records] eqn:E; [contradiction|].
  rewrite <- E. replace (length rateRecords =? 0)%nat with false
    by (rewrite E; reflexivity).
  apply sort_In, in_map. exact He.
Qed.

Lemma rows_of_group_key (g : GroupedData.t) (row : Row.t) :
  In g groupedData -> In row (GroupedData.stores g) ->
  exists key,
    List.filter (selects key (Row.storeId row)) rateRecords <> []
    /\ GroupedData.size g = nth 0 (JS.split "|" key) EmptyString
    /\ GroupedData.featureCode g = nth 1 (JS.split "|" key) EmptyString.
Proof.
  intros Hg Hrow.
  apply groupedData_In in Hg as ([key table] & He & ->).
  apply buildGroup_rows in Hrow as (storeId & records & Hin & ->).
  apply (proj1 (entries_In _ _)) in Hin.
  destruct (groups_entry key table storeId records He Hin) as [Hrec Hne].
  exists key. change (Row.storeId (storeRow storeId records)) with storeId.
  rewrite <- Hrec. repeat split. exact Hne.
Qed.

(** X12. Every row of every group of the report is computed from exactly
    the input records that pass the size filter, carry the key of the
    group (raw size label, a bar, feature code) and belong to the row's
    store, in input order; there is at least one such record, and the
    group's size and feature code are the first two pieces of that key. *)
Theorem report_rows_from_input (g : GroupedData.t) (row : Row.t) :
  In g groupedData -> In row (GroupedData.stores g) ->
  exists key,
    let records := List.filter (selects key (Row.storeId row)) rateRecords in
    row = storeRow (Row.storeId row) records
    /\ records <> []
    /\ Row.recordCount row = length records
    /\ GroupedData.size g = nth 0 (JS.split "|" key) EmptyString
    /\ GroupedData.featureCode g = nth 1 (JS.split "|" key) EmptyString.
Proof.
  intros Hg Hrow.
  apply groupedData_In in Hg as ([key table] & He & ->).
  apply buildGroup_rows in Hrow as (storeId & records & Hin & ->).
  apply (proj1 (entries_In _ _)) in Hin.
  destruct (groups_entry key table storeId records He Hin) as [Hrec Hne].
  exists key. cbv zeta.
  change (Row.storeId (storeRow storeId records)) with storeId.
  rewrite <- Hrec. repeat split. exact Hne.
Qed.

(** X13. Conversely, every input record that passes the size filter is
    counted in the report: there is a group under the record's key with a
    row for the record's store, computed from the records that pass,
    carry that key and belong to that store, the record among them. *)
Theorem passing_record_is_reported (r : RateRecord.t) :
  In r rateRecords -> passesFilter r = true ->
  exists g row,
    let records :=
      List.filter (selects (groupKeyOf r) (RateRecord.storeId r)) rateRecords in
    In g groupedData /\ In row (GroupedData.stores g)
    /\ row = storeRow (RateRecord.storeId r) records
    /\ In r records
    /\ GroupedData.size g = nth 0 (JS.split "|" (groupKeyOf r)) EmptyString
    /\ GroupedData.featureCode g = nth 1 (JS.split "|" (groupKeyOf r)) EmptyString.
Proof.
  intros Hr Hp.
  assert (Hsel : In r (List.filter (selects (groupKeyOf r) (RateRecord.storeId r))
                         rateRecords)).
  { apply filter_In. split; [exact Hr|]. unfold selects.
    now rewrite Hp, String.eqb_refl, Z.eqb_refl. }
  pose proof (recordsOf_groups (groupKeyOf r) (RateRecord.storeId r)) as Hrec.
  unfold recordsOf in Hrec.
  destruct (getProp (groupKeyOf r) groups) as [table|] eqn:Hg;
    [|rewrite <- Hrec in Hsel; destruct Hsel].
  destruct (getProp (RateRecord.storeId r) table) as [records|] eqn:Ht;
    [|rewrite <- Hrec in Hsel; destruct Hsel].
  simpl in Hrec. apply getProp_In in Hg, Ht.
  exists (buildGroup (length rateRecords) (groupKeyOf r, table)),
    (storeRow (RateRecord.storeId r) records).
  cbv zeta. rewrite <- Hrec. repeat split.
  - apply groupedData_built; [|exact Hg]. intros E. rewrite E in Hr. destruct Hr.
  - rewrite buildGroup_stores. apply sort_In, in_map_iff.
    exists (RateRecord.storeId r, records). split; [reflexivity|].
    now apply entries_In.
  - now rewrite Hrec.
Qed.

(** ** Empty reports, empty groups *)

Lemma report_group_populated g :
  In g groupedData ->
  GroupedData.stores g <> []
  /\ (forall row, In row (GroupedData.stores g) -> (0 < Row.recordCount row)%nat).
Proof.
  intros Hg. split.
  - apply groupedData_In in Hg as ([key table] & He & ->).
    pose proof groups_populated as Hp. unfold populated in Hp.
    rewrite List.Forall_forall in Hp. destruct (Hp _ He) as [Hne _].
    rewrite buildGroup_stores. intros Hnil.
    apply (f_equal (@length Row.t)) in Hnil.
    rewrite (Permutation_length (sort_perm _ _)), length_map in Hnil.
    rewrite (Permutation_length (entries_perm _)) in Hnil.
    simpl in Hne. destruct table; [now apply Hne|discriminate Hnil].
  - intros row Hrow.
    destruct (report_rows g row Hg Hrow) as (storeId & records & ->).
    apply groupedData_In in Hg as ([key table] & He & ->).
    apply buildGroup_rows in Hrow as (k & v & Hin & Heq).
    apply (proj1 (entries_In _ _)) in Hin.
    destruct (groups_entry key table k v He Hin) as [_ Hne].
    rewrite Heq. simpl. destruct v; [now destruct Hne|simpl; lia].
Qed.

Lemma groupCount_pos g : In g groupedData -> (0 < groupCount g)%nat.
Proof.
  intros Hg. destruct (report_group_populated g Hg) as [Hne Hpos].
  unfold groupCount. destruct (GroupedData.stores g) as [|row rows];
    [now destruct Hne|].
  simpl. specialize (Hpos row (or_introl eq_refl)). lia.
Qed.

Lemma share_pos p n : (0 < p)%nat -> (0 < n)%nat -> (0 < share p n)%Qc.
Proof.
  intros Hp Hn. unfold share, Qcdiv.
  assert (Hq : forall k, (0 < k)%nat -> (0 < Qc_of_Z (Z.of_nat k))%Qc).
  { intros k Hk. rewrite <- Z2Qc_inj_0. apply (proj1 (Z2Qc_inj_lt _ _)). lia. }
  apply Qcmult_pos_pos; [apply Qcmult_pos_pos|].
  - now apply Hq.
  - now apply Qcinv_pos, Hq.
  - rewrite <- Z2Qc_inj_0. apply (proj1 (Z2Qc_inj_lt _ _)). lia.
Qed.

(** X14. The report is empty exactly when no input record passes the
    size filter (in particular for no input and for no selected size);
    otherwise every group has at least one row, every row counts at least
    one record, and every market share is positive. *)
Theorem report_has_no_empty_part :
  (groupedData = [] <-> List.filter passesFilter rateRecords = [])
  /\ (forall g, In g groupedData ->
        GroupedData.stores g <> []
        /\ (forall row, In row (GroupedData.stores g) ->
                        (0 < Row.recordCount row)%nat)
        /\ (0 < GroupedData.marketShare g)%Qc).
Proof.
  split.
  - split.
    + intros Hnil. pose proof reportCount_groupedData as Hc.
      rewrite Hnil in Hc. simpl in Hc.
      destruct (List.filter passesFilter rateRecords); [reflexivity|discriminate Hc].
    + intros Hnone. destruct groupedData as [|g report] eqn:E; [reflexivity|].
      exfalso. pose proof reportCount_groupedData as Hc.
      rewrite Hnone, E in Hc. unfold reportCount in Hc. simpl in Hc.
      assert (Hpos : (0 < groupCount g)%nat)
        by (apply groupCount_pos; rewrite E; now left).
      lia.
  - intros g Hg. destruct (report_group_populated g Hg) as [Hne Hpos].
    split; [exact Hne|]. split; [exact Hpos|].
    pose proof (groupCount_pos g Hg) as Hcount.
    assert (Hn : (0 < length rateRecords)%nat).
    { pose proof Hg as Hg'. unfold groupedData in Hg'.
      destruct (length rateRecords); [destruct Hg'|lia]. }
    apply groupedData_In in Hg as (entry & _ & ->).
    rewrite buildGroup_share. now apply share_pos.
Qed.

(** ** Size labels *)

Lemma lower_facts (c : ascii) :
  JS.is_space (JS.lower c) = JS.is_space c
  /\ Ascii.eqb "'" (JS.lower c) = Ascii.eqb "'" c
  /\ JS.lower (JS.lower c) = JS.lower c
  /\ Ascii.eqb (JS.lower c) "|" = Ascii.eqb c "|".
Proof.
  destruct c as [b0 b1 b2 b3 b4 b5 b6 b7].
  destruct b0, b1, b2, b3, b4, b5, b6, b7; repeat split.
Qed.

Lemma normalizeSize_cons (c : ascii) (s : string) :
  normalizeSize (String c s) =
    if JS.is_space c || Ascii.eqb "'" c then normalizeSize s
    else String (JS.lower c) (normalizeSize s).
Proof.
  destruct (lower_facts c) as (Hs & Ha & _).
  unfold normalizeSize. cbn [JS.toLowerCase JS.remove]. rewrite Hs.
  destruct (JS.is_space c); cbn [orb]; [reflexivity|].
  cbn [JS.remove]. rewrite Ha. now destruct (Ascii.eqb "'" c).
Qed.

Lemma append_nil (s : string) : (EmptyString ++ s)%string = s.
Proof. reflexivity. Qed.

Lemma append_cons (c : ascii) (a b : string) :
  (String c a ++ b)%string = String c (a ++ b).
Proof. reflexivity. Qed.

Lemma normalizeSize_app_skip (a b : string) (c : ascii) :
  JS.is_space c || Ascii.eqb "'" c = true ->
  normalizeSize (a ++ String c b) = normalizeSize (a ++ b).
Proof.
  intros Hc. induction a as [|x a IH].
  - now rewrite !append_nil, normalizeSize_cons, Hc.
  - now rewrite !append_cons, !normalizeSize_cons, IH.
Qed.

Lemma passesFilter_iff record :
  passesFilter record = true <->
  exists selected,
    In selected selectedSizes
    /\ normalizeSize (JS.str_or (RateRecord.size record) EmptyString)
       = normalizeSize selected.
Proof.
  unfold passesFilter, allowedSizes.
  rewrite bool_decide_eq_true, elem_of_list_to_set, list_elem_of_fmap. split.
  - intros (z & Hz & Hin). exists z. split; [now apply list_elem_of_In|exact Hz].
  - intros (z & Hin & Hz). exists z. split; [exact Hz|now apply list_elem_of_In].
Qed.

Lemma normalizeSize_chars (s : string) (c : ascii) :
  has_char c (normalizeSize s) = true ->
  JS.is_space c = false /\ Ascii.eqb "'" c = false /\ JS.lower c = c.
Proof.
  induction s as [|x s IH]; [discriminate|].
  rewrite normalizeSize_cons.
  destruct (JS.is_space x || Ascii.eqb "'" x) eqn:E; [exact IH|].
  cbn [has_char]. intros H. apply orb_true_iff in H as [H|H]; [|now apply IH].
  apply Ascii.eqb_eq in H. subst c.
  destruct (lower_facts x) as (-> & -> & -> & _).
  apply orb_false_iff in E as [-> ->]. now repeat split.
Qed.

(** X15. [normalizeSize] is idempotent and sees neither letter case nor
    white space (the no-break space included) nor apostrophes, wherever
    they stand; its result holds no white space, no apostrophe and no
    upper-case letter; and the grouping loop files an input record under
    some group exactly when its label normalizes to the same text as one
    of the selected sizes. *)
Theorem normalizeSize_insensitive (s : string) :
  normalizeSize (normalizeSize s) = normalizeSize s
  /\ normalizeSize (JS.toLowerCase s) = normalizeSize s
  /\ (forall a b c, s = (a ++ String c b)%string ->
        JS.is_space c || Ascii.eqb "'" c = true ->
        normalizeSize s = normalizeSize (a ++ b))
  /\ (forall c, has_char c (normalizeSize s) = true ->
        JS.is_space c = false /\ c <> "'"%char /\ JS.lower c = c)
  /\ (forall record, In record rateRecords -> RateRecord.size record = Some s ->
        (exists key storeId, In record (recordsOf groups key storeId)) <->
        exists selected, In selected selectedSizes
                         /\ normalizeSize s = normalizeSize selected).
Proof.
  split; [|split; [|split; [|split]]].
  - induction s as [|c s IH]; [reflexivity|].
    rewrite normalizeSize_cons.
    destruct (JS.is_space c || Ascii.eqb "'" c) eqn:E; [exact IH|].
    rewrite normalizeSize_cons.
    destruct (lower_facts c) as (-> & -> & -> & _). now rewrite E, IH.
  - induction s as [|c s IH]; [reflexivity|].
    cbn [JS.toLowerCase]. rewrite !normalizeSize_cons.
    destruct (lower_facts c) as (-> & -> & -> & _). now rewrite IH.
  - intros a b c -> Hc. now apply normalizeSize_app_skip.
  - intros c Hc. destruct (normalizeSize_chars s c Hc) as (Hs & Ha & Hl).
    repeat split; [exact Hs| |exact Hl].
    intros ->. discriminate Ha.
  - intros record Hin Hsize.
    assert (Hstr : JS.str_or (RateRecord.size record) EmptyString = s)
      by (rewrite Hsize; now destruct s).
    rewrite <- Hstr, <- passesFilter_iff. split.
    + intros (key & storeId & Hr). rewrite recordsOf_groups in Hr.
      apply filter_In in Hr as [_ Hsel]. unfold selects in Hsel.
      apply andb_true_iff in Hsel as [Hsel _].
      now apply andb_true_iff in Hsel as [Hp _].
    + intros Hp. exists (groupKeyOf record), (RateRecord.storeId record).
      rewrite recordsOf_groups. apply filter_In. split; [exact Hin|].
      unfold selects. now rewrite Hp, String.eqb_refl, Z.eqb_refl.
Qed.

Lemma has_char_normalizeSize (s : string) :
  has_char "|" (normalizeSize s) = has_char "|" s.
Proof.
  induction s as [|c s IH]; [reflexivity|].
  rewrite normalizeSize_cons. cbn [has_char].
  destruct (lower_facts c) as (_ & _ & _ & Hbar).
  destruct (JS.is_space c || Ascii.eqb "'" c) eqn:E.
  - rewrite IH. replace (Ascii.eqb c "|") with false; [reflexivity|].
    destruct c as [b0 b1 b2 b3 b4 b5 b6 b7].
    destruct b0, b1, b2, b3, b4, b5, b6, b7; try reflexivity; discriminate E.
  - cbn [has_char]. now rewrite Hbar, IH.
Qed.

Lemma split_nonempty sep s : JS.split sep s <> [].
Proof.
  destruct s as [|c s]; simpl; [discriminate|].
  destruct (Ascii.eqb c sep); [discriminate|].
  now destruct (JS.split sep s).
Qed.

Lemma split_app sep (a b : string) :
  has_char sep a = false ->
  JS.split sep (a ++ String sep b) = a :: JS.split sep b.
Proof.
  induction a as [|c a IH].
  - intros _. rewrite append_nil. cbn [JS.split]. now rewrite Ascii.eqb_refl.
  - cbn [has_char]. intros H. apply orb_false_iff in H as [Hc Ha].
    rewrite append_cons. cbn [JS.split]. rewrite Hc, (IH Ha). reflexivity.
Qed.

Lemma split_none sep (s : string) :
  has_char sep s = false -> JS.split sep s = [s].
Proof.
  induction s as [|c s IH]; simpl; [reflexivity|].
  intros H. apply orb_false_iff in H as [Hc Hs].
  now rewrite Hc, (IH Hs).
Qed.

Lemma passesFilter_no_bar record :
  (forall selected, In selected selectedSizes -> has_char "|" selected = false) ->
  passesFilter record = true ->
  has_char "|" (JS.str_or (RateRecord.size record) EmptyString) = false.
Proof.
  intros Hsel. unfold passesFilter, allowedSizes.
  rewrite bool_decide_eq_true, elem_of_list_to_set, list_elem_of_fmap.
  intros (z & Hz & Hin). apply list_elem_of_In in Hin.
  rewrite <- has_char_normalizeSize, Hz, has_char_normalizeSize. now apply Hsel.
Qed.

(** X16. When no selected size contains a bar (none of the sizes of the
    selector does), every group of the report carries the raw size label
    of the records it was built from, unchanged, and as feature code their
    feature code up to its first bar, the whole code when it has none. *)
Theorem group_labels_are_raw (g : GroupedData.t) :
  (forall selected, In selected selectedSizes -> has_char "|" selected = false) ->
  In g groupedData ->
  exists r,
    In r rateRecords /\ passesFilter r = true
    /\ GroupedData.size g = JS.str_or (RateRecord.size r) EmptyString
    /\ GroupedData.featureCode g =
         nth 0 (JS.split "|" (getFeatureCode r)) EmptyString
    /\ (has_char "|" (getFeatureCode r) = false ->
        GroupedData.featureCode g = getFeatureCode r).
Proof.
  intros Hsel Hg.
  destruct (report_group_populated g Hg) as [Hne _].
  destruct (GroupedData.stores g) as [|row rows] eqn:Erows; [now destruct Hne|].
  destruct (rows_of_group_key g row Hg) as (key & Hrec & Hsize & Hcode).
  { rewrite Erows. now left. }
  destruct (List.filter (selects key (Row.storeId row)) rateRecords)
    as [|r records] eqn:Ef; [now destruct Hrec|].
  assert (Hr : In r (List.filter (selects key (Row.storeId row)) rateRecords))
    by (rewrite Ef; now left).
  apply filter_In in Hr as [Hr Hs]. unfold selects in Hs.
  apply andb_true_iff in Hs as [Hs _]. apply andb_true_iff in Hs as [Hp Hk].
  apply String.eqb_eq in Hk. exists r. split; [exact Hr|]. split; [exact Hp|].
  pose proof (passesFilter_no_bar r Hsel Hp) as Hbar.
  unfold groupKeyOf in Hk. rewrite <- Hk in Hsize, Hcode.
  change ("|" ++ getFeatureCode r)%string
    with (String "|" (getFeatureCode r)) in Hsize, Hcode.
  rewrite (split_app _ _ _ Hbar) in Hsize, Hcode. simpl in Hsize, Hcode.
  split; [exact Hsize|].
  assert (Hnth : nth 1 (JS.str_or (RateRecord.size r) EmptyString
                        :: JS.split "|" (getFeatureCode r)) EmptyString
                 = nth 0 (JS.split "|" (getFeatureCode r)) EmptyString)
    by reflexivity.
  split.
  - destruct (JS.split "|" (getFeatureCode r)) eqn:E; exact Hcode.
  - intros Hnobar. rewrite (split_none _ _ Hnobar) in Hcode. exact Hcode.
Qed.

(** ** Group averages *)

Lemma calcAverages_prices (k : priceKind) records startDate :
  meanOf k (calcAverages records startDate) =
    if (0 <? length (pricesIn k startDate records))%nat
    then Some (JS.sum (pricesIn k startDate records)
               / Qc_of_Z (Z.of_nat (length (pricesIn k startDate records))))%Qc
    else None.
Proof. apply calcAverages_mean. Qed.

Lemma calcAverages_none_iff (k : priceKind) records startDate :
  meanOf k (calcAverages records startDate) = None <->
  (forall r, In r records -> inWindow startDate r = true ->
             JS.truthy (priceOf k r) = false).
Proof.
  split; [|apply calcAverages_none].
  rewrite calcAverages_prices. unfold pricesIn. rewrite length_map.
  destruct (List.filter (fun r => JS.truthy (priceOf k r))
              (List.filter (inWindow startDate) records)) as [|x l] eqn:E;
    [|discriminate].
  intros _ r Hr Hw.
  apply (proj1 (filter_nil_iff _ _) E). apply filter_In. now split.
Qed.

Lemma buildGroup_mean (k : priceKind) (w : window) n key table :
  groupMeanOf k w (GroupedData.averages (buildGroup n (key, table))) =
    meanOf k (calcAverages (concat (List.map snd (JS.entries table))) (startOf w)).
Proof. destruct k, w; reflexivity. Qed.

Lemma pricesIn_app k startDate (a b : list RateRecord.t) :
  pricesIn k startDate (a ++ b) =
    (pricesIn k startDate a ++ pricesIn k startDate b)%list.
Proof. unfold pricesIn. now rewrite !List.filter_app, List.map_app. Qed.

Lemma sum_from (l : list Qc) (a : Qc) :
  fold_left Qcplus l a = (a + JS.sum l)%Qc.
Proof.
  unfold JS.sum. revert a. induction l as [|x l IH]; intros a; simpl.
  - ring.
  - rewrite (IH (a + x)%Qc), (IH (0 + x)%Qc). ring.
Qed.

Lemma sum_app (a b : list Qc) : JS.sum (a ++ b) = (JS.sum a + JS.sum b)%Qc.
Proof. unfold JS.sum at 1. rewrite fold_left_app. apply sum_from. Qed.

Lemma sort_singleton {A} (cmp : A -> A -> option Qc) (l : list A) (x : A) :
  JS.sort cmp l = [x] -> l = [x].
Proof.
  intros H. pose proof (sort_perm cmp l) as Hp. rewrite H in Hp.
  now apply Permutation_length_1_inv in Hp.
Qed.

(** X17. For every group of the report, window and price type: the group
    figure is "no value" exactly when every row of the group has "no
    value"; in a group with a single store row the group figure is that
    row's figure, computed from the same records in the same order; the
    group's adjusted figure is always "no value". *)
Theorem group_figure_of_rows (g : GroupedData.t) (k : priceKind) (w : window) :
  In g groupedData ->
  (groupMeanOf k w (GroupedData.averages g) = None <->
   forall row, In row (GroupedData.stores g) -> rowMeanOf k w row = None)
  /\ (forall row, GroupedData.stores g = [row] ->
        groupMeanOf k w (GroupedData.averages g) = rowMeanOf k w row)
  /\ groupAskingAdjOf w (GroupedData.averages g) = None.
Proof.
  intros Hg. apply groupedData_In in Hg as ([key table] & He & ->).
  assert (Hrows : forall row,
            In row (GroupedData.stores (buildGroup (length rateRecords) (key, table)))
            <-> exists e, In e (JS.entries table) /\ row = storeRow e.1 e.2).
  { intros row. rewrite buildGroup_stores, sort_In, in_map_iff.
    split; intros (e & H1 & H2); exists e; auto. }
  rewrite buildGroup_mean. split; [|split].
  - rewrite calcAverages_none_iff. split.
    + intros H row Hrow. apply Hrows in Hrow as ([sid v] & Hin & ->).
      rewrite storeRow_mean. apply calcAverages_none_iff.
      intros r Hr. apply H. apply in_concat. exists v. split; [|exact Hr].
      apply in_map_iff. now exists (sid, v).
    + intros H r Hr Hw. apply in_concat in Hr as (v & Hv & Hr).
      apply in_map_iff in Hv as ([sid v'] & <- & Hin).
      specialize (H (storeRow sid v')).
      rewrite storeRow_mean, calcAverages_none_iff in H.
      apply H; [|exact Hr|exact Hw]. apply Hrows. now exists (sid, v').
  - intros row Hone. rewrite buildGroup_stores in Hone.
    apply sort_singleton in Hone.
    destruct (JS.entries table) as [|[sid v] [|e es]]; try discriminate Hone.
    injection Hone as <-. simpl. rewrite app_nil_r. now rewrite storeRow_mean.
  - now destruct w.
Qed.

(** ** The subject's row *)

(** X18. A row of the subject store has adjustment 0, so its adjusted
    asking figure is its unadjusted asking mean in every window ("no value"
    when that mean is "no value" or 0); it is the first row of its group
    and the row the group header finds with [find(s => s.isSubject)]. *)
Theorem subject_row_is_unadjusted (g : GroupedData.t) (row : Row.t) :
  In g groupedData -> In row (GroupedData.stores g) ->
  Row.isSubject row = true ->
  Row.adjustment row = 0%Qc
  /\ (forall w, askingAdjOf w row =
                match askingOf w row with
                | Some m => if decide (m = 0%Qc) then None else Some m
                | None => None
                end)
  /\ JS.find Row.isSubject (GroupedData.stores g) = Some row
  /\ hd_error (GroupedData.stores g) = Some row.
Proof.
  intros Hg Hrow Hsub.
  apply groupedData_In in Hg as ([key table] & He & ->).
  apply buildGroup_rows in Hrow as (sid & records & Hin & ->).
  apply (proj1 (entries_In _ _)) in Hin.
  apply storeRow_isSubject in Hsub as (subject & Hs & <-).
  assert (Hadj : getStoreAdjustment (Store.storeId subject) = 0%Qc).
  { unfold getStoreAdjustment. rewrite Hs. now rewrite decide_True. }
  split; [exact Hadj|]. split.
  - intros w. rewrite storeRow_adjusted, Hadj.
    destruct (askingOf w _) as [m|]; [|reflexivity].
    destruct (decide (m = 0%Qc)); [reflexivity|]. f_equal. ring.
  - destruct (subject_row_first (length rateRecords) key table subject records
                He Hs Hin) as (rest & -> & _ & _).
    split; [|reflexivity]. simpl. rewrite Hs.
    now rewrite bool_decide_eq_true_2.
Qed.

(** ** Size labels that do not parse *)

Lemma split_ws_nonempty (s : string) : JS.split_ws s <> [].
Proof.
  induction s as [|c s IH]; simpl; [discriminate|].
  destruct (JS.is_space c).
  - destruct s as [|c' s']; [discriminate|].
    destruct (JS.is_space c'); [exact IH|discriminate].
  - now destruct (JS.split_ws s).
Qed.

Lemma split_ws_cons (c : ascii) (s : string) :
  JS.split_ws (String c s) =
    if JS.is_space c then
      match s with
      | String c' _ =>
          if JS.is_space c' then JS.split_ws s else EmptyString :: JS.split_ws s
      | EmptyString => EmptyString :: JS.split_ws s
      end
    else
      match JS.split_ws s with
      | t :: ts => String c t :: ts
      | [] => [String c EmptyString]
      end.
Proof. reflexivity. Qed.

Lemma split_ws_leading (c : ascii) (s : string) :
  JS.is_space c = true ->
  exists t ts, JS.split_ws (String c s) = EmptyString :: t :: ts.
Proof.
  revert c. induction s as [|c' s IH]; intros c Hc; rewrite split_ws_cons, Hc.
  - now exists EmptyString, [].
  - destruct (JS.is_space c') eqn:Hc'.
    + now apply IH.
    + destruct (JS.split_ws (String c' s)) as [|t ts] eqn:E.
      * now apply split_ws_nonempty in E.
      * now exists t, ts.
Qed.

Lemma leading_separator (c : ascii) :
  JS.is_space c = true \/ c = "x"%char \/ c = "X"%char ->
  let c1 := if Ascii.eqb "x" (JS.lower c) then " "%char else JS.lower c in
  JS.is_space c1 = true /\ Ascii.eqb "'" c1 = false.
Proof.
  destruct c as [b0 b1 b2 b3 b4 b5 b6 b7].
  destruct b0, b1, b2, b3, b4, b5, b6, b7;
    intros [H|[H|H]]; try discriminate H; split; reflexivity.
Qed.

(** X19. A size label that starts with white space or with the letter x
    (in either case) never parses: its first piece is empty, so
    [parseSize] is [NaN] whatever follows. *)
Theorem parseSize_leading_separator (c : ascii) (s : string) :
  JS.is_space c = true \/ c = "x"%char \/ c = "X"%char ->
  parseSize (String c s) = None.
Proof.
  intros Hc. destruct (leading_separator c Hc) as [Hsp Hap].
  unfold parseSize. cbn [JS.toLowerCase JS.replace JS.remove].
  rewrite Hap.
  destruct (split_ws_leading _
              (JS.remove (Ascii.eqb "'")
                 (JS.replace (Ascii.eqb "x") " " (JS.toLowerCase s))) Hsp)
    as (t & ts & ->).
  reflexivity.
Qed.

(** ** Direction of the ranking adjustment *)

Lemma ranked_adjustment subject storeId sr cr :
  subjectStore = Some subject -> storeId <> Store.storeId subject ->
  storeRankings !! Store.storeId subject = Some sr ->
  storeRankings !! storeId = Some cr ->
  getStoreAdjustment storeId =
    (baseAdjustment_spec
     + Q2Qc (1 # 100)
       * average8 (fun cat => JS.num_or (sr !! cat) (Qc_of_Z 5)
                              - JS.num_or (cr !! cat) (Qc_of_Z 5)))%Qc.
Proof.
  intros Hs Hne Hsr Hcr. unfold getStoreAdjustment.
  rewrite Hs, decide_False, Hsr, Hcr by exact Hne.
  rewrite totalAdjustment_base. unfold average8, rankingCategories. simpl.
  change (Qc_of_Z (Z.of_nat 8)) with (Qc_of_Z 8).
  field. discriminate.
Qed.

Lemma average8_nonneg (f : string -> Qc) :
  (forall cat, In cat rankingCategories -> (0 <= f cat)%Qc) ->
  (0 <= average8 f)%Qc.
Proof.
  intros H. unfold average8, Qcdiv.
  apply Qcmult_nonneg_nonneg; [|now vm_compute].
  repeat apply Qcplus_nonneg_nonneg; apply H; unfold rankingCategories;
    simpl; tauto.
Qed.

(** X20. For a comparison store with rankings, next to a subject with
    rankings: when the store scores no higher than the subject in any of
    the eight categories (a missing or zero score counting as 5) its factor
    is at least the base adjustment; when it scores no lower in any, at
    most the base adjustment; with the same eight scores, exactly the
    base adjustment. *)
Theorem ranking_adjustment_direction (subject : Store.t) (storeId : Z)
    (sr cr : StoreRankings) :
  subjectStore = Some subject -> storeId <> Store.storeId subject ->
  storeRankings !! Store.storeId subject = Some sr ->
  storeRankings !! storeId = Some cr ->
  let score (r : StoreRankings) cat := JS.num_or (r !! cat) (Qc_of_Z 5) in
  ((forall cat, In cat rankingCategories -> (score cr cat <= score sr cat)%Qc) ->
   (baseAdjustment_spec <= getStoreAdjustment storeId)%Qc)
  /\ ((forall cat, In cat rankingCategories -> (score sr cat <= score cr cat)%Qc) ->
      (getStoreAdjustment storeId <= baseAdjustment_spec)%Qc)
  /\ ((forall cat, In cat rankingCategories -> score sr cat = score cr cat) ->
      getStoreAdjustment storeId = baseAdjustment_spec).
Proof.
  intros Hs Hne Hsr Hcr score.
  rewrite (ranked_adjustment subject storeId sr cr Hs Hne Hsr Hcr).
  fold score.
  assert (Hup : (forall cat, In cat rankingCategories ->
                   (score cr cat <= score sr cat)%Qc) ->
                (baseAdjustment_spec
                 <= baseAdjustment_spec
                    + Q2Qc (1 # 100)
                      * average8 (fun cat => score sr cat - score cr cat))%Qc).
  { intros H. rewrite <- (Qcplus_0_r baseAdjustment_spec) at 1.
    apply Qcplus_le_mono_l. apply Qcmult_nonneg_nonneg; [now vm_compute|].
    apply average8_nonneg. intros cat Hcat.
    apply (proj1 (Qcle_minus_iff _ _)). now apply H. }
  assert (Hdown : (forall cat, In cat rankingCategories ->
                     (score sr cat <= score cr cat)%Qc) ->
                  (baseAdjustment_spec
                   + Q2Qc (1 # 100)
                     * average8 (fun cat => score sr cat - score cr cat)
                   <= baseAdjustment_spec)%Qc).
  { intros H. rewrite <- (Qcplus_0_r baseAdjustment_spec) at 2.
    apply Qcplus_le_mono_l.
    replace (Q2Qc (1 # 100) * average8 (fun cat => score sr cat - score cr cat))%Qc
      with (- (Q2Qc (1 # 100)
               * average8 (fun cat => score cr cat - score sr cat)))%Qc
      by (unfold average8; field; discriminate).
    apply Qcopp_le_compat with (p := 0%Qc).
    apply Qcmult_nonneg_nonneg; [now vm_compute|].
    apply average8_nonneg. intros cat Hcat.
    apply (proj1 (Qcle_minus_iff _ _)). now apply H. }
  split; [exact Hup|]. split; [exact Hdown|].
  intros Heq. apply Qcle_antisym.
  - apply Hdown. intros cat Hcat. rewrite (Heq cat Hcat). apply Qcle_refl.
  - apply Hup. intros cat Hcat. rewrite (Heq cat Hcat). apply Qcle_refl.
Qed.

(** ** Windows and prices *)

Lemma inWindow_later (startA startB : Z) (r : RateRecord.t) :
  startA <= startB -> inWindow startB r = true -> inWindow startA r = true.
Proof.
  unfold inWindow. destruct (RateRecord.date r) as [d|]; [|discriminate].
  intros Hle H. apply Z.leb_le in H. apply Z.leb_le. lia.
Qed.

Lemma filter_filter_implied {A} (p q : A -> bool) (l : list A) :
  (forall x, p x = true -> q x = true) ->
  List.filter p (List.filter q l) = List.filter p l.
Proof.
  intros H. induction l as [|x l IH]; [reflexivity|]. simpl.
  destruct (q x) eqn:Hq; simpl.
  - now rewrite IH.
  - destruct (p x) eqn:Hp; [|exact IH]. apply H in Hp. congruence.
Qed.

(** X25. A later window start never adds a record: when the four window
    starts are in order (12 months back first), a row with "no value" for
    one window has "no value" for every shorter window, for asking and
    in-store alike; and a record with an invalid date counts in no
    window. *)
Theorem shorter_window_has_no_more (k : priceKind) (storeId : Z)
    (records : list RateRecord.t) :
  t12Start <= t6Start -> t6Start <= t3Start -> t3Start <= t1Start ->
  let row := storeRow storeId records in
  (rowMeanOf k T12 row = None -> rowMeanOf k T6 row = None)
  /\ (rowMeanOf k T6 row = None -> rowMeanOf k T3 row = None)
  /\ (rowMeanOf k T3 row = None -> rowMeanOf k T1 row = None)
  /\ (forall w, rowMeanOf k w row =
                rowMeanOf k w
                  (storeRow storeId
                     (List.filter (fun r => bool_decide (RateRecord.date r <> None))
                        records))).
Proof.
  intros H12 H6 H3. cbv zeta.
  assert (Hstep : forall wa wb, startOf wa <= startOf wb ->
            rowMeanOf k wa (storeRow storeId records) = None ->
            rowMeanOf k wb (storeRow storeId records) = None).
  { intros wa wb Hle. rewrite !storeRow_mean, !calcAverages_none_iff.
    intros H r Hr Hw. apply H; [exact Hr|]. now apply (inWindow_later _ _ _ Hle). }
  split; [now apply (Hstep T12 T6)|]. split; [now apply (Hstep T6 T3)|].
  split; [now apply (Hstep T3 T1)|].
  intros w. rewrite !storeRow_mean, !calcAverages_mean. cbv zeta.
  rewrite (filter_filter_implied (inWindow (startOf w))
             (fun r => bool_decide (RateRecord.date r <> None)));
    [reflexivity|].
  intros r Hr. apply bool_decide_eq_true. unfold inWindow in Hr.
  now destruct (RateRecord.date r).
Qed.

Lemma pricesIn_none k startDate (records : list RateRecord.t) :
  (forall r, In r records -> inWindow startDate r = true ->
             JS.truthy (priceOf k r) = false) ->
  pricesIn k startDate records = [].
Proof.
  intros H. unfold pricesIn.
  replace (List.filter (fun r => JS.truthy (priceOf k r)) _)
    with (@nil RateRecord.t); [reflexivity|].
  symmetry. apply filter_nil_iff. intros r Hr.
  apply filter_In in Hr as [Hr Hw]. now apply H.
Qed.

Lemma pricesIn_one k startDate (r : RateRecord.t) (p : Qc) :
  inWindow startDate r = true -> priceOf k r = Some p -> p <> 0%Qc ->
  pricesIn k startDate [r] = [p].
Proof.
  intros Hw Hp Hnz. unfold pricesIn. cbn [List.filter]. rewrite Hw.
  cbn [List.filter]. rewrite Hp. cbn [JS.truthy].
  rewrite decide_False by exact Hnz. cbn [List.map]. now rewrite Hp.
Qed.

(** X26. A mean of a row has a value exactly when some record of the
    store in the window carries a non-zero price of that type; and when
    exactly one record does, the mean is that record's price, whatever
    records without such a price stand before or after it. *)
Theorem single_price_is_the_mean (k : priceKind) (w : window) (storeId : Z)
    (records : list RateRecord.t) :
  (rowMeanOf k w (storeRow storeId records) <> None <->
   exists r p, In r records /\ inWindow (startOf w) r = true
               /\ priceOf k r = Some p /\ p <> 0%Qc)
  /\ (forall before r after p,
        records = (before ++ r :: after)%list ->
        inWindow (startOf w) r = true -> priceOf k r = Some p -> p <> 0%Qc ->
        (forall r', In r' (before ++ after) -> inWindow (startOf w) r' = true ->
                    JS.truthy (priceOf k r') = false) ->
        rowMeanOf k w (storeRow storeId records) = Some p).
Proof.
  rewrite storeRow_mean. split.
  - rewrite calcAverages_none_iff. split.
    + intros H.
      destruct (List.filter (fun r => JS.truthy (priceOf k r))
                  (List.filter (inWindow (startOf w)) records))
        as [|r l] eqn:E.
      * exfalso. apply H. intros r Hr Hw.
        apply (proj1 (filter_nil_iff _ _) E). apply filter_In. now split.
      * assert (Hr : In r (List.filter (fun r => JS.truthy (priceOf k r))
                             (List.filter (inWindow (startOf w)) records)))
          by (rewrite E; now left).
        apply filter_In in Hr as [Hr Ht]. apply filter_In in Hr as [Hr Hw].
        destruct (priceOf k r) as [p|] eqn:Ep; [|discriminate Ht].
        exists r, p. repeat split; try assumption.
        intros Hz. unfold JS.truthy in Ht.
        destruct (decide (p = 0%Qc)); [discriminate Ht|contradiction].
    + intros (r & p & Hr & Hw & Hp & Hnz) H.
      specialize (H r Hr Hw). rewrite Hp in H. unfold JS.truthy in H.
      destruct (decide (p = 0%Qc)); [contradiction|discriminate H].
  - intros before r after p -> Hw Hp Hnz Hrest.
    rewrite calcAverages_prices.
    change (r :: after) with ([r] ++ after)%list.
    rewrite !pricesIn_app, (pricesIn_one _ _ _ _ Hw Hp Hnz).
    rewrite !pricesIn_none.
    + simpl. f_equal. unfold JS.sum. simpl.
      change (Qc_of_Z (Z.of_nat 1)) with (Qc_of_Z 1).
      rewrite Z2Qc_inj_1. field. discriminate.
    + intros r' Hr'. apply Hrest. apply in_or_app. now right.
    + intros r' Hr'. apply Hrest. apply in_or_app. now left.
Qed.

(** ** Distinct groups *)

Lemma groups_key_of_record key table :
  In (key, table) groups ->
  exists r, In r rateRecords /\ passesFilter r = true /\ groupKeyOf r = key.
Proof.
  intros He. pose proof groups_populated as Hp. unfold populated in Hp.
  rewrite List.Forall_forall in Hp. destruct (Hp _ He) as [Hne _].
  simpl in Hne. destruct table as [|[sid recs] table]; [now destruct Hne|].
  destruct (groups_entry key _ sid recs He (or_introl eq_refl)) as [Hrec Hnil].
  destruct recs as [|r recs]; [now destruct Hnil|].
  assert (Hr : In r (List.filter (selects key sid) rateRecords))
    by (rewrite <- Hrec; now left).
  apply filter_In in Hr as [Hr Hs]. unfold selects in Hs.
  apply andb_true_iff in Hs as [Hs _]. apply andb_true_iff in Hs as [Hpass Hk].
  apply String.eqb_eq in Hk. eauto.
Qed.

(** X27. When neither a selected size nor the feature code of any record
    contains a bar, no two groups of the report have the same size label
    and feature code: the pairs of labels are pairwise distinct. *)
Theorem group_labels_distinct :
  (forall selected, In selected selectedSizes -> has_char "|" selected = false) ->
  (forall r, In r rateRecords -> has_char "|" (getFeatureCode r) = false) ->
  List.NoDup
    (List.map (fun g => (GroupedData.size g, GroupedData.featureCode g))
       groupedData).
Proof.
  intros Hsel Hcode. unfold groupedData.
  destruct (length rateRecords =? 0)%nat; [constructor|]. cbv zeta.
  eapply Permutation_NoDup.
  { symmetry. apply Permutation_map, sort_perm. }
  rewrite List.map_map.
  assert (Hlabel : forall e, In e groups ->
            (GroupedData.size (buildGroup (length rateRecords) e),
             GroupedData.featureCode (buildGroup (length rateRecords) e))
            = (nth 0 (JS.split "|" e.1) EmptyString,
               nth 1 (JS.split "|" e.1) EmptyString)
            /\ e.1 = (nth 0 (JS.split "|" e.1) EmptyString ++ "|"
                      ++ nth 1 (JS.split "|" e.1) EmptyString)%string).
  { intros [key table] He. split; [reflexivity|]. simpl.
    destruct (groups_key_of_record key table He) as (r & Hr & Hp & <-).
    unfold groupKeyOf.
    change ("|" ++ getFeatureCode r)%string with (String "|" (getFeatureCode r)).
    rewrite (split_app _ _ _ (passesFilter_no_bar r Hsel Hp)).
    rewrite (split_none _ _ (Hcode r Hr)). reflexivity. }
  pose proof groups_outer_NoDup as Hnd.
  induction groups as [|e gs IH]; [constructor|].
  simpl in *. inversion Hnd as [|? ? Hnin Hnd']; subst.
  constructor.
  - intros Hin. apply in_map_iff in Hin as (e' & Heq & He').
    destruct (Hlabel e (or_introl eq_refl)) as [H1 H2].
    destruct (Hlabel e' (or_intror He')) as [H1' H2'].
    rewrite H1, H1' in Heq. injection Heq as Ha Hb.
    apply Hnin. apply in_map_iff. exists e'. split; [|exact He'].
    rewrite H2, H2', Ha, Hb. reflexivity.
  - apply IH; [|exact Hnd']. intros e' He'. apply Hlabel. now right.
Qed.
(** ** Adjusted asking on a rate feed *)

Lemma sum_positive (l : list Qc) :
  l <> [] -> (forall p, In p l -> (0 < p)%Qc) -> (0 < JS.sum l)%Qc.
Proof.
  induction l as [|p l IH]; [now intros []|]. intros _ H.
  change (p :: l) with ([p] ++ l)%list. rewrite sum_app.
  replace (JS.sum [p]) with p by (unfold JS.sum; simpl; ring).
  destruct l as [|q l'].
  - replace (JS.sum []) with 0%Qc by reflexivity. rewrite Qcplus_0_r.
    apply H. now left.
  - apply Qcplus_pos_pos.
    + apply H. now left.
    + apply IH; [discriminate|]. intros x Hx. apply H. now right.
Qed.

(** Without a negative price a mean that has a value is above 0: the
    prices averaged are the non-zero ones. *)
Lemma mean_positive (k : priceKind) records startDate (m : Qc) :
  (forall r p, In r records -> priceOf k r = Some p -> (0 <= p)%Qc) ->
  meanOf k (calcAverages records startDate) = Some m -> (0 < m)%Qc.
Proof.
  intros Hnn. rewrite calcAverages_prices.
  destruct (pricesIn k startDate records) as [|p ps] eqn:E; [discriminate|].
  simpl. intros [= <-].
  assert (Hsum : (0 < JS.sum (p :: ps))%Qc).
  { apply sum_positive; [discriminate|]. rewrite <- E. intros x Hx.
    unfold pricesIn in Hx. apply in_map_iff in Hx as (r & <- & Hr).
    apply filter_In in Hr as [Hr Ht]. apply filter_In in Hr as [Hr _].
    destruct (priceOf k r) as [q|] eqn:Eq; [|discriminate Ht].
    simpl in *. destruct (decide (q = 0%Qc)) as [|Hq]; [discriminate Ht|].
    destruct (Qcle_lt_or_eq _ _ (Hnn r q Hr Eq)) as [Hlt|Heq]; [exact Hlt|].
    now destruct Hq. }
  assert (Hn : (0 < Qc_of_Z (Z.of_nat (length (p :: ps))))%Qc).
  { rewrite <- Z2Qc_inj_0. apply (proj1 (Z2Qc_inj_lt _ _)). simpl. lia. }
  unfold Qcdiv. apply Qcmult_pos_pos; [exact Hsum|]. now apply Qcinv_pos.
Qed.

(** C1. On input without a negative asking price (what a rate feed
    gives), for every store row of every group and every trailing window
    (12, 6, 3, 1 months): the row's adjustment is the store's adjustment
    factor, the adjusted asking figure is the unadjusted asking mean
    multiplied by (1 + adjustment), and the adjusted figure is "no value"
    exactly when the unadjusted mean is "no value". *)
Theorem adjusted_asking_exact (g : GroupedData.t) (r : Row.t) (w : window) :
  (forall record p, In record rateRecords ->
                    RateRecord.onlinePrice record = Some p -> (0 <= p)%Qc) ->
  In g groupedData -> In r (GroupedData.stores g) ->
  Row.adjustment r = getStoreAdjustment (Row.storeId r)
  /\ askingAdjOf w r = adjustedAsking_spec (askingOf w r) (Row.adjustment r)
  /\ (forall m, askingOf w r = Some m ->
                askingAdjOf w r = Some (m * (1 + Row.adjustment r))%Qc)
  /\ (askingAdjOf w r = None <-> askingOf w r = None).
Proof.
  intros Hnn Hg Hr.
  apply groupedData_In in Hg as ([key table] & He & ->).
  apply buildGroup_rows in Hr as (storeId & records & Hin & ->).
  apply (proj1 (entries_In _ _)) in Hin.
  destruct (groups_entry key table storeId records He Hin) as [Hrec _].
  assert (Hpos : forall m, askingOf w (storeRow storeId records) = Some m ->
                           m <> 0%Qc).
  { intros m Hm. change (askingOf w (storeRow storeId records))
      with (rowMeanOf Asking w (storeRow storeId records)) in Hm.
    rewrite storeRow_mean in Hm.
    apply mean_positive in Hm.
    - intros ->. now apply Qclt_not_eq in Hm.
    - intros r p Hr. rewrite Hrec in Hr. apply filter_In in Hr as [Hr _].
      now apply Hnn. }
  change (Row.adjustment (storeRow storeId records))
    with (getStoreAdjustment storeId).
  rewrite storeRow_adjusted.
  destruct (askingOf w (storeRow storeId records)) as [m|] eqn:Em.
  - rewrite decide_False by now apply Hpos.
    repeat split; try discriminate. now intros m' [= <-].
  - repeat split; discriminate.
Qed.

End Aggregation.

(** ** The report on sample inputs *)

(** The report for the sample stores, a 5 percent base adjustment, the
    default sizes and no metadata, custom names or feature codes. *)
Local Abbreviation sampleReport rankings records :=
  (groupedData (Some Sample.subject) Sample.stores ∅ rankings Sample.factors
     records ∅ [] DEFAULT_UNIT_SIZES Sample.t12 Sample.t6 Sample.t3 Sample.t1
     Sample.collate).

(** C3 (the code at the failing input). A size label with a leading blank
    has an empty first piece, so [parseSize] multiplies [NaN] by the first
    number and returns [NaN], neither 25 nor 0; the comparator then returns
    [NaN] for every pair with that group and the group stays where it was
    created, here after the 10x10 group, whatever the collation. *)
Theorem parseSize_leading_blank (localeCompare : string -> string -> Z) :
  parseSize " 5x5" = None
  /\ parseSize "5x5" = Some (Qc_of_Z 25)
  /\ parseSize "10x10" = Some (Qc_of_Z 100)
  /\ parseSize "abc" = Some 0%Qc
  /\ parseSize "axb" = None
  /\ List.map GroupedData.size
       (groupedData (Some Sample.subject) Sample.stores ∅ ∅ Sample.factors
          Sample.leadingBlank ∅ [] DEFAULT_UNIT_SIZES
          Sample.t12 Sample.t6 Sample.t3 Sample.t1 localeCompare)
     = ["10x10"; " 5x5"].
Proof.
  repeat split; try (vm_compute; reflexivity);
    vm_compute; f_equal; apply Qc_is_canon; reflexivity.
Qed.

(** On labels without a leading blank the order is the one described:
    5x5 (25) before 10x10 (100), and DU before ENCC within 10x10. *)
Lemma group_order_sample :
  List.map (fun g => (GroupedData.size g, GroupedData.featureCode g))
    (sampleReport ∅ Sample.unordered)
  = [("5x5", "DU"); ("10x10", "DU"); ("10x10", "ENCC")].
Proof. vm_compute. reflexivity. Qed.

(** The condition on the prices is needed: an asking price below 0 can
    cancel another one, the unadjusted mean is then the number 0 and the
    truthiness test of the row takes it for "no value". *)
Lemma adjusted_asking_zero_mean :
  exists g r,
    In g (sampleReport ∅ Sample.cancelling)
    /\ In r (GroupedData.stores g)
    /\ askingOf T12 r = Some 0%Qc
    /\ askingAdjOf T12 r = None
    /\ askingAdjOf T12 r <> adjustedAsking_spec (askingOf T12 r) (Row.adjustment r).
Proof.
  eexists. eexists.
  split; [vm_compute; left; reflexivity|].
  split; [vm_compute; left; reflexivity|].
  split; [vm_compute; f_equal; apply Qc_is_canon; reflexivity|].
  split; [vm_compute; reflexivity|].
  vm_compute. discriminate.
Qed.

(** C1 (witness). Store 7 of the sample: asking 100 and 120 in the
    12-month window, adjustment 5 percent. *)
Lemma adjusted_asking_exact_witness :
  exists g r,
    In g (sampleReport ∅ Sample.records)
    /\ In r (GroupedData.stores g)
    /\ askingOf T12 r = Some (Qc_of_Z 110)
    /\ Row.adjustment r =
         getStoreAdjustment (Some Sample.subject) ∅ Sample.factors (Row.storeId r)
    /\ askingAdjOf T12 r = adjustedAsking_spec (askingOf T12 r) (Row.adjustment r)
    /\ (forall m, askingOf T12 r = Some m ->
                  askingAdjOf T12 r = Some (m * (1 + Row.adjustment r))%Qc)
    /\ (askingAdjOf T12 r = None <-> askingOf T12 r = None).
Proof.
  eexists. eexists.
  split; [vm_compute; left; reflexivity|].
  split; [vm_compute; right; right; left; reflexivity|].
  split; [vm_compute; f_equal; apply Qc_is_canon; reflexivity|].
  eapply (adjusted_asking_exact (Some Sample.subject) Sample.stores ∅ ∅
            Sample.factors Sample.records ∅ [] DEFAULT_UNIT_SIZES
            Sample.t12 Sample.t6 Sample.t3 Sample.t1 Sample.collate _ _ T12).
  - intros record p Hin Hp. unfold Sample.records in Hin. simpl in Hin.
    repeat destruct Hin as [<-|Hin]; try destruct Hin;
      simpl in Hp; injection Hp as <-; vm_compute; intros H; discriminate H.
  - vm_compute. left. reflexivity.
  - vm_compute. right. right. left. reflexivity.
Defined.

(** C2 (counterexample). The subject scores 0 for Location and the
    comparison store has no score: the code reads the 0 as 5, so the factor
    is the base 5/100, while taking only missing scores as 5 gives
    5/100 - 5/800. *)
Lemma location_zero_counts_as_five :
  getStoreAdjustment (Some Sample.subject) Sample.rankings Sample.factors 7
    = (Qc_of_Z 5 / Qc_of_Z 100)%Qc
  /\ getStoreAdjustment_spec Sample.rankings Sample.factors Sample.subject 7
    = (Qc_of_Z 5 / Qc_of_Z 100 - Qc_of_Z 5 / Qc_of_Z 800)%Qc
  /\ getStoreAdjustment (Some Sample.subject) Sample.rankings Sample.factors 7
    <> getStoreAdjustment_spec Sample.rankings Sample.factors Sample.subject 7.
Proof.
  split; [apply Qc_is_canon; vm_compute; reflexivity|].
  split; [apply Qc_is_canon; vm_compute; reflexivity|].
  intros H. apply (f_equal this) in H. vm_compute in H. discriminate H.
Qed.

(** C5 (witness). A drive-up, climate-controlled record and an empty
    FeatureCode list: the code is DUCC. *)
Lemma getFeatureCode_fallback_witness :
  getFeatureCode [] (Sample.record 7 "10x10" true true 200 None) = "DUCC".
Proof.
  apply (getFeatureCode_fallback [] (Sample.record 7 "10x10" true true 200 None)).
  intros f [].
Defined.

(** C7 (witness). Store 7 of the sample has no record in the 1-month
    window with an asking price, and none with an in-store price in any
    window. *)
Lemma mean_of_no_samples_witness :
  rowMeanOf Asking T1
    (storeRow (Some Sample.subject) Sample.stores ∅ ∅ Sample.factors ∅
       Sample.t12 Sample.t6 Sample.t3 Sample.t1 7
       (List.filter (fun r => RateRecord.storeId r =? 7) Sample.records))
  = None.
Proof.
  apply mean_of_no_samples. intros r Hr Hw. vm_compute in Hr.
  destruct Hr as [<-|[<-|[]]]; vm_compute in Hw; discriminate Hw.
Defined.

(** C8 (witness). The one group of the sample report: the subject's row,
    then store 3 at distance 1 and store 7 at distance 2. *)
Lemma subject_first_then_distance_witness :
  exists g,
    In g (sampleReport ∅ Sample.records)
    /\ List.map Row.storeId (GroupedData.stores g) = [1; 3; 7]
    /\ exists key storeRecords,
         In (key, storeRecords) (groups Sample.records [] DEFAULT_UNIT_SIZES)
         /\ g = buildGroup (Some Sample.subject) Sample.stores ∅ ∅ Sample.factors ∅
                  Sample.t12 Sample.t6 Sample.t3 Sample.t1
                  (length Sample.records) (key, storeRecords)
         /\ (forall subject records,
               Some Sample.subject = Some subject ->
               In (Store.storeId subject, records) storeRecords ->
               exists rest,
                 GroupedData.stores g =
                   storeRow (Some Sample.subject) Sample.stores ∅ ∅ Sample.factors ∅
                     Sample.t12 Sample.t6 Sample.t3 Sample.t1
                     (Store.storeId subject) records :: rest
                 /\ Forall (fun x => Row.isSubject x = false) rest
                 /\ Sorted distLe rest)
         /\ ((forall subject, Some Sample.subject = Some subject ->
                ~ In (Store.storeId subject) (List.map fst storeRecords)) ->
             Sorted distLe (GroupedData.stores g)).
Proof.
  eexists.
  split; [vm_compute; left; reflexivity|].
  split; [vm_compute; reflexivity|].
  eapply (subject_first_then_distance (Some Sample.subject) Sample.stores ∅ ∅
            Sample.factors Sample.records ∅ [] DEFAULT_UNIT_SIZES
            Sample.t12 Sample.t6 Sample.t3 Sample.t1 Sample.collate).
  vm_compute. left. reflexivity.
Defined.

(** C9 (witness). A store whose only price in the window is an asking
    price of 0 has no asking mean. *)
Lemma zero_price_is_absent_witness :
  meanOf Asking (calcAverages Sample.zeroPriced Sample.t12) = None.
Proof.
  apply (proj2 (zero_price_is_absent Sample.zeroPriced Sample.t12) Asking).
  intros r [<-|[]] _. right. reflexivity.
Defined.


(** ** The stored snapshot *)

Section WizardStorageFacts.
Import WizardStorage.

Context {RCAWizardState : Type}
        (JSON_parse : string -> option (@StoredState RCAWizardState)).

(** [JSON.parse] rejects the empty text. *)
Hypothesis JSON_parse_empty : JSON_parse EmptyString = None.

(** C10. [loadWizardState] returns null and leaves the storage alone when
    there is no snapshot or its text does not parse; it returns null and
    removes the snapshot when the version is not "1.0" or the timestamp is
    more than 7 days (604800000 ms) before [now]; otherwise it returns the
    stored state and leaves the storage alone.  It returns in every
    case. *)
Theorem loadWizardState_cases (now : Z) (ls : gmap string string) :
  (ls !! STORAGE_KEY = None ->
     loadWizardState JSON_parse now ls = (None, ls))
  /\ (forall stored, ls !! STORAGE_KEY = Some stored ->
        JSON_parse stored = None ->
        loadWizardState JSON_parse now ls = (None, ls))
  /\ (forall stored parsed, ls !! STORAGE_KEY = Some stored ->
        JSON_parse stored = Some parsed ->
        version parsed <> "1.0" \/ 604800000 < now - timestamp parsed ->
        loadWizardState JSON_parse now ls = (None, delete STORAGE_KEY ls))
  /\ (forall stored parsed, ls !! STORAGE_KEY = Some stored ->
        JSON_parse stored = Some parsed ->
        version parsed = "1.0" -> now - timestamp parsed <= 604800000 ->
        loadWizardState JSON_parse now ls = (Some (state parsed), ls)).
Proof.
  unfold loadWizardState.
  split; [intros ->; reflexivity|].
  split; [|split].
  - intros stored -> Hp. destruct (decide (stored = EmptyString)); [reflexivity|].
    now rewrite Hp.
  - intros stored parsed -> Hp Hbad.
    destruct (decide (stored = EmptyString)) as [->|_]; [congruence|].
    rewrite Hp. unfold STORAGE_VERSION, clearWizardState.
    destruct (String.eqb_spec (version parsed) "1.0") as [Hv|Hv]; simpl;
      [|reflexivity].
    destruct Hbad as [Hbad|Hbad]; [contradiction|].
    change (7 * 24 * 60 * 60 * 1000) with 604800000.
    destruct (Z.ltb_spec 604800000 (now - timestamp parsed)); [reflexivity|lia].
  - intros stored parsed -> Hp Hv Hfresh.
    destruct (decide (stored = EmptyString)) as [->|_]; [congruence|].
    rewrite Hp. unfold STORAGE_VERSION. rewrite Hv. simpl.
    change (7 * 24 * 60 * 60 * 1000) with 604800000.
    destruct (Z.ltb_spec 604800000 (now - timestamp parsed)); [lia|reflexivity].
Qed.

End WizardStorageFacts.

(** C10 (witness). A version 1.0 snapshot taken at 1000 and read at 2000
    is returned; read eight days later it is removed. *)
Lemma loadWizardState_cases_witness :
  WizardStorage.loadWizardState Sample.parseSnapshot 2000 Sample.storage
    = (Some 42%nat, Sample.storage)
  /\ WizardStorage.loadWizardState Sample.parseSnapshot 691201000 Sample.storage
    = (None, delete WizardStorage.STORAGE_KEY Sample.storage).
Proof.
  split.
  - apply (proj2 (proj2 (proj2
      (loadWizardState_cases Sample.parseSnapshot eq_refl 2000 Sample.storage)))
      Sample.snapshotText (WizardStorage.mkStored "1.0" 1000 42%nat));
      [reflexivity | reflexivity | reflexivity | vm_compute; discriminate].
  - apply (proj1 (proj2 (proj2
      (loadWizardState_cases Sample.parseSnapshot eq_refl 691201000 Sample.storage)))
      Sample.snapshotText (WizardStorage.mkStored "1.0" 1000 42%nat));
      [reflexivity | reflexivity | right; reflexivity].
Defined.

(** ** More on the stored snapshot *)

Section WizardStorageMore.
Import WizardStorage.

Context {RCAWizardState : Type}
        (JSON_parse : string -> option (@StoredState RCAWizardState))
        (JSON_stringify : @StoredState RCAWizardState -> option string)
        (allows : gmap string string -> string -> string -> bool).

Lemma loadWizardState_storage (now : Z) (ls : gmap string string) :
  (loadWizardState JSON_parse now ls).2 = ls
  \/ ((loadWizardState JSON_parse now ls).1 = None
      /\ (loadWizardState JSON_parse now ls).2 = delete STORAGE_KEY ls).
Proof.
  unfold loadWizardState, clearWizardState.
  destruct (ls !! STORAGE_KEY) as [stored|]; [|now left].
  destruct (decide (stored = EmptyString)); [now left|].
  destruct (JSON_parse stored) as [parsed|]; [|now left].
  destruct (negb _); [now right|].
  cbv zeta. destruct (_ <? _); [now right|now left].
Qed.

(** X1. A snapshot saved at [now] whose text the parser reads back is
    returned by a load at any time up to seven days later, the storage
    staying as the save left it; a load more than seven days later returns
    null and removes it.  The save changes no other key. *)
Theorem save_then_load (now now' : Z) (st : RCAWizardState)
    (ls : gmap string string) (text : string) :
  JSON_parse EmptyString = None ->
  JSON_stringify (mkStored STORAGE_VERSION now st) = Some text ->
  JSON_parse text = Some (mkStored STORAGE_VERSION now st) ->
  allows ls STORAGE_KEY text = true ->
  let ls' := saveWizardState JSON_stringify allows now st ls in
  (now' - now <= 604800000 ->
     loadWizardState JSON_parse now' ls' = (Some st, ls'))
  /\ (604800000 < now' - now ->
     loadWizardState JSON_parse now' ls' = (None, delete STORAGE_KEY ls))
  /\ getLastSavedTimestamp JSON_parse ls' = Some now
  /\ hasSavedState ls' = true
  /\ (forall key, key <> STORAGE_KEY -> ls' !! key = ls !! key).
Proof.
  intros Hempty Hstr Hparse Hallow ls'.
  assert (Hls' : ls' = <[STORAGE_KEY := text]> ls).
  { unfold ls', saveWizardState, LocalStorage.setItem. now rewrite Hstr, Hallow. }
  assert (Htext : text <> EmptyString) by (intros ->; congruence).
  assert (Hget : ls' !! STORAGE_KEY = Some text)
    by (rewrite Hls'; apply lookup_insert_eq).
  clearbody ls'.
  repeat split.
  - intros Hfresh. unfold loadWizardState. rewrite Hget.
    destruct (decide (text = EmptyString)); [contradiction|].
    rewrite Hparse. simpl.
    change (7 * 24 * 60 * 60 * 1000) with 604800000.
    destruct (Z.ltb_spec 604800000 (now' - now)); [lia|reflexivity].
  - intros Hold. unfold loadWizardState, clearWizardState. rewrite Hget.
    destruct (decide (text = EmptyString)); [contradiction|].
    rewrite Hparse. simpl.
    change (7 * 24 * 60 * 60 * 1000) with 604800000.
    destruct (Z.ltb_spec 604800000 (now' - now)); [|lia].
    rewrite Hls'. now rewrite delete_insert_eq.
  - unfold getLastSavedTimestamp. rewrite Hget.
    destruct (decide (text = EmptyString)); [contradiction|].
    now rewrite Hparse.
  - unfold hasSavedState. apply bool_decide_eq_true. now rewrite Hget.
  - intros key Hkey. rewrite Hls'. now apply lookup_insert_ne.
Qed.

Lemma loadWizardState_reads_key (now : Z) (ls1 ls2 : gmap string string) :
  ls1 !! STORAGE_KEY = ls2 !! STORAGE_KEY ->
  (loadWizardState JSON_parse now ls1).1 = (loadWizardState JSON_parse now ls2).1.
Proof.
  unfold loadWizardState. intros ->.
  destruct (ls2 !! STORAGE_KEY) as [stored|]; [|reflexivity].
  destruct (decide (stored = EmptyString)); [reflexivity|].
  destruct (JSON_parse stored) as [parsed|]; [|reflexivity].
  destruct (negb _); [reflexivity|]. cbv zeta. now destruct (_ <? _).
Qed.

(** X2. [loadWizardState] reads and writes one key: every other key of the
    storage keeps its value, and the snapshot itself is either left as it
    is or removed, never rewritten. *)
Theorem loadWizardState_frame (now : Z) (ls : gmap string string) (key : string) :
  let ls' := (loadWizardState JSON_parse now ls).2 in
  (key <> STORAGE_KEY -> ls' !! key = ls !! key)
  /\ (ls' !! STORAGE_KEY = ls !! STORAGE_KEY \/ ls' !! STORAGE_KEY = None).
Proof.
  cbv zeta. destruct (loadWizardState_storage now ls) as [->|[_ ->]].
  - split; [reflexivity|now left].
  - split; [intros Hk; now apply lookup_delete_ne|].
    right. apply lookup_delete_eq.
Qed.

(** X3. Once a load has returned null, every load at the same or a later
    time returns null, both on the storage the first load left and on the
    storage it started from, and leaves that storage as the first load
    did. *)
Theorem load_null_is_final (now now' : Z) (ls ls' : gmap string string) :
  loadWizardState JSON_parse now ls = (None, ls') ->
  now <= now' ->
  loadWizardState JSON_parse now' ls' = (None, ls')
  /\ loadWizardState JSON_parse now' ls = (None, ls').
Proof.
  unfold loadWizardState, clearWizardState. intros H Hle.
  destruct (ls !! STORAGE_KEY) as [stored|] eqn:Hget.
  2: { injection H as <-. now rewrite Hget. }
  destruct (decide (stored = EmptyString)) as [Hs|Hs].
  { injection H as <-. rewrite Hget. now destruct (decide (stored = EmptyString)). }
  destruct (JSON_parse stored) as [parsed|] eqn:Hp.
  2: { injection H as <-. rewrite Hget.
       destruct (decide (stored = EmptyString)); [contradiction|].
       now rewrite Hp. }
  destruct (negb (String.eqb (version parsed) STORAGE_VERSION)) eqn:Hv.
  { injection H as <-. now rewrite lookup_delete_eq. }
  cbv zeta in *.
  destruct (Z.ltb_spec (7 * 24 * 60 * 60 * 1000) (now - timestamp parsed)) as [Hold|Hfresh];
    [|discriminate H].
  injection H as <-. rewrite lookup_delete_eq. split; [reflexivity|].
  destruct (Z.ltb_spec (7 * 24 * 60 * 60 * 1000) (now' - timestamp parsed));
    [reflexivity|lia].
Qed.

(** X4. A snapshot text that is empty or does not parse makes the load
    return null but is not removed: after a load that returned null,
    [hasSavedState] still answers true exactly in that case. *)
Theorem unreadable_snapshot_stays (now : Z) (ls ls' : gmap string string) :
  loadWizardState JSON_parse now ls = (None, ls') ->
  hasSavedState ls' = true <->
  exists stored,
    ls !! STORAGE_KEY = Some stored
    /\ (stored = EmptyString \/ JSON_parse stored = None).
Proof.
  unfold loadWizardState, clearWizardState, hasSavedState.
  rewrite bool_decide_eq_true. intros H.
  destruct (ls !! STORAGE_KEY) as [stored|] eqn:Hget.
  2: { injection H as <-. rewrite Hget. split; [congruence|].
       intros (s & Hs & _). discriminate. }
  destruct (decide (stored = EmptyString)) as [Hs|Hs].
  { injection H as <-. rewrite Hget. split; [eauto|congruence]. }
  destruct (JSON_parse stored) as [parsed|] eqn:Hp.
  2: { injection H as <-. rewrite Hget. split; [eauto|congruence]. }
  assert (Hdel : ls' = delete STORAGE_KEY ls).
  { destruct (negb _); [now injection H as <-|]. cbv zeta in H.
    destruct (_ <? _); [now injection H as <-|discriminate H]. }
  rewrite Hdel, lookup_delete_eq. split; [congruence|].
  intros (s & Hs' & [->|Hnone]); [congruence|].
  assert (s = stored) as -> by congruence. congruence.
Qed.

(** X5. When a load returns a state, the storage is left as it was, and
    [getLastSavedTimestamp] and [hasSavedState] agree with it: there is a
    saved state and its timestamp is at most seven days before [now]. *)
Theorem load_agrees_with_timestamp (now : Z) (st : RCAWizardState)
    (ls ls' : gmap string string) :
  loadWizardState JSON_parse now ls = (Some st, ls') ->
  ls' = ls
  /\ hasSavedState ls = true
  /\ exists t, getLastSavedTimestamp JSON_parse ls = Some t
               /\ now - t <= 604800000.
Proof.
  unfold loadWizardState, getLastSavedTimestamp, hasSavedState. intros H.
  destruct (ls !! STORAGE_KEY) as [stored|]; [|discriminate H].
  destruct (decide (stored = EmptyString)); [discriminate H|].
  destruct (JSON_parse stored) as [parsed|]; [|discriminate H].
  destruct (negb _); [discriminate H|]. cbv zeta in H.
  destruct (Z.ltb_spec (7 * 24 * 60 * 60 * 1000) (now - timestamp parsed));
    [discriminate H|].
  injection H as _ <-. split; [reflexivity|]. split; [reflexivity|].
  exists (timestamp parsed). split; [reflexivity|lia].
Qed.

(** X6. After [handleNewAnalysis] the wizard starts at step 1 with no
    saved state: [hasSavedState] is false, [getLastSavedTimestamp] and
    [loadWizardState] return null, and the other keys are untouched. *)
Theorem new_analysis_forgets (now : Z) (ls : gmap string string) :
  let '(ls', stepNumber) := StepPage.handleNewAnalysis ls in
  stepNumber = 1
  /\ StepPage.renderStep stepNumber = Some StepPage.StepSearch
  /\ hasSavedState ls' = false
  /\ getLastSavedTimestamp JSON_parse ls' = None
  /\ loadWizardState JSON_parse now ls' = (None, ls')
  /\ (forall key, key <> STORAGE_KEY -> ls' !! key = ls !! key).
Proof.
  unfold StepPage.handleNewAnalysis, clearWizardState, hasSavedState,
    getLastSavedTimestamp, loadWizardState.
  rewrite lookup_delete_eq. repeat split.
  all: try (apply bool_decide_eq_false; tauto).
  intros key Hkey. now apply lookup_delete_ne.
Qed.

End WizardStorageMore.

(** ** The keepalive timer and the activity listeners *)

Section KeepaliveFacts.
Import Keepalive.

Context (allows : gmap string string -> string -> string -> bool)
        (newHandle : gmap Z Z -> Z)
        (toString : Z -> string).
Lemma stopKeepalive_one_timer base w :
  one_timer base w ->
  keepaliveInterval (stopKeepalive w) = None
  /\ intervals (stopKeepalive w) = base.
Proof.
  unfold one_timer, stopKeepalive.
  destruct (keepaliveInterval w) as [handle|] eqn:E; simpl.
  - intros (Hfree & ms & ->). split; [reflexivity|].
    now apply delete_insert_id.
  - intros ->. now rewrite E.
Qed.

Lemma step_one_timer base w c :
  (forall m, m !! newHandle m = None) ->
  one_timer base w -> one_timer base (step allows newHandle toString w c).
Proof.
  intros Hfresh Hw. destruct c as [intervalMs now|]; simpl.
  - destruct (stopKeepalive_one_timer base w Hw) as [Hnone Hbase].
    unfold startKeepalive, one_timer. simpl.
    assert (Hint : intervals (match keepaliveInterval w with
                              | Some _ => stopKeepalive w
                              | None => w
                              end) = base).
    { destruct (keepaliveInterval w) eqn:E; [exact Hbase|].
      unfold one_timer in Hw. now rewrite E in Hw. }
    rewrite Hint. split; [apply Hfresh|]. eauto.
  - destruct (stopKeepalive_one_timer base w Hw) as [Hnone Hbase].
    unfold one_timer. now rewrite Hnone.
Qed.

(** X7. Whatever calls of [startKeepalive] and [stopKeepalive] are made,
    in any order, from a state with no keepalive timer, and provided
    [setInterval] returns a handle that is not in use: at most one
    keepalive interval is active, it is the one [keepaliveInterval] holds,
    and the other intervals of the window are untouched; after a final
    [stopKeepalive] none is left. *)
Theorem keepalive_single_timer (calls : list call) (w : Window) :
  (forall m, m !! newHandle m = None) ->
  keepaliveInterval w = None ->
  let w' := run allows newHandle toString calls w in
  match keepaliveInterval w' with
  | None => intervals w' = intervals w
  | Some handle =>
      intervals w !! handle = None
      /\ exists intervalMs, intervals w' = <[handle := intervalMs]> (intervals w)
  end
  /\ intervals (stopKeepalive w') = intervals w.
Proof.
  intros Hfresh Hnone. cbv zeta.
  assert (H : one_timer (intervals w) (run allows newHandle toString calls w)).
  { assert (H0 : one_timer (intervals w) w)
      by (unfold one_timer; now rewrite Hnone).
    unfold run. generalize dependent w. intros w _. generalize (intervals w) as base.
    intros base. revert w.
    induction calls as [|c calls IH]; intros w H0; simpl; [exact H0|].
    apply IH. now apply step_one_timer. }
  split; [exact H|]. now apply stopKeepalive_one_timer.
Qed.

Lemma setItem_frame ls key value key' :
  key' <> key ->
  match LocalStorage.setItem allows ls key value with
  | Some ls' => ls'
  | None => ls
  end !! key' = ls !! key'.
Proof.
  intros Hne. unfold LocalStorage.setItem.
  destruct (allows ls key value); [|reflexivity].
  now apply lookup_insert_ne.
Qed.

Lemma react_storage_frame w e key :
  key <> "app-keepalive" -> key <> "app-last-activity" ->
  storage (react allows newHandle toString w e) !! key = storage w !! key.
Proof.
  intros Hk Ha. destruct e as [[intervalMs now|]|now|now]; simpl.
  - unfold keepaliveAction. rewrite setItem_frame by exact Hk.
    unfold stopKeepalive. now destruct (keepaliveInterval w).
  - unfold stopKeepalive. now destruct (keepaliveInterval w).
  - unfold keepaliveAction. now rewrite setItem_frame.
  - unfold handleActivity. now rewrite setItem_frame.
Qed.

Section KeepaliveAndSnapshot.
Context {RCAWizardState : Type}
        (JSON_parse : string -> option (@WizardStorage.StoredState RCAWizardState)).

(** X8. Whatever the keepalive module does (calls of [startKeepalive] and
    [stopKeepalive], firings of the interval and of the activity
    listeners, in any number and order), it writes the two keys
    app-keepalive and app-last-activity only: every other key keeps its
    value, so [loadWizardState] returns what it would have returned
    without it. *)
Theorem keepalive_spares_snapshot (events : list event) (w : Window) (now : Z) :
  let w' := fold_left (react allows newHandle toString) events w in
  (forall key, key <> "app-keepalive" -> key <> "app-last-activity" ->
               storage w' !! key = storage w !! key)
  /\ (WizardStorage.loadWizardState JSON_parse now (storage w')).1
     = (WizardStorage.loadWizardState JSON_parse now (storage w)).1.
Proof.
  cbv zeta.
  assert (H : forall key, key <> "app-keepalive" -> key <> "app-last-activity" ->
            storage (fold_left (react allows newHandle toString) events w) !! key
            = storage w !! key).
  { intros key Hk Ha. revert w.
    induction events as [|e events IH]; intros w; simpl; [reflexivity|].
    rewrite IH. now apply react_storage_frame. }
  split; [exact H|].
  apply loadWizardState_reads_key. apply H; discriminate.
Qed.

End KeepaliveAndSnapshot.

Lemma setupActivityTracking_listeners callback w :
  listeners (setupActivityTracking callback w).1 =
    list_to_set ((fun e => (e, callback)) <$> events) ∪ listeners w
  /\ forall w2,
       listeners ((setupActivityTracking callback w).2 w2) =
         listeners w2 ∖ list_to_set ((fun e => (e, callback)) <$> events)
       /\ intervals ((setupActivityTracking callback w).2 w2) = intervals w2
       /\ keepaliveInterval ((setupActivityTracking callback w).2 w2)
          = keepaliveInterval w2
       /\ storage ((setupActivityTracking callback w).2 w2) = storage w2.
Proof.
  clear allows newHandle toString.
  unfold setupActivityTracking, events. simpl.
  split; [apply set_eq; intros x; set_unfold; tauto|].
  intros w2. repeat split. apply set_eq. intros x. set_unfold. tauto.
Qed.

(** X9. [setupActivityTracking] registers its callback for mousedown,
    keydown, scroll and touchstart and nothing else; the cleanup it
    returns removes these four registrations from whatever window it is
    run on, leaving the listeners of other callbacks, the intervals and
    the storage alone; run right after the setup, with a callback that was
    not registered before, it restores the listeners exactly. *)
Theorem activity_tracking_cleanup (callback : Z) (w : Window) :
  let '(w1, cleanup) := setupActivityTracking callback w in
  (forall event other,
     (event, other) ∈ listeners w1 <->
     (event, other) ∈ listeners w \/ (other = callback /\ In event events))
  /\ (forall w2 event other,
        (event, other) ∈ listeners (cleanup w2) <->
        (event, other) ∈ listeners w2 /\ ~ (other = callback /\ In event events))
  /\ (forall w2, intervals (cleanup w2) = intervals w2
                 /\ keepaliveInterval (cleanup w2) = keepaliveInterval w2
                 /\ storage (cleanup w2) = storage w2)
  /\ ((forall event, (event, callback) ∉ listeners w) ->
      listeners (cleanup w1) = listeners w).
Proof.
  clear allows newHandle toString.
  destruct (setupActivityTracking callback w) as [w1 cleanup] eqn:E.
  pose proof (setupActivityTracking_listeners callback w) as [H1 H2].
  rewrite E in H1, H2. simpl in H1, H2.
  assert (Hev : forall event other,
            (event, other) ∈ (list_to_set ((fun e => (e, callback)) <$> events)
                              : gset (string * Z))
            <-> other = callback /\ In event events).
  { intros event other. rewrite elem_of_list_to_set, list_elem_of_fmap.
    split.
    - intros (e & He & Hin). injection He as -> ->.
      split; [reflexivity|]. now apply list_elem_of_In.
    - intros [-> Hin]. exists event. split; [reflexivity|].
      now apply list_elem_of_In. }
  split; [|split; [|split]].
  - intros event other. rewrite H1, elem_of_union, Hev. tauto.
  - intros w2 event other. destruct (H2 w2) as (-> & _).
    rewrite elem_of_difference, Hev. tauto.
  - intros w2. destruct (H2 w2) as (_ & ? & ? & ?). auto.
  - intros Hfresh. destruct (H2 w1) as (-> & _). rewrite H1.
    apply set_eq. intros [event other].
    rewrite elem_of_difference, elem_of_union, Hev.
    split; [tauto|]. intros Hin. split; [now right|].
    intros [-> _]. exact (Hfresh _ Hin).
Qed.

Lemma react_firing_keeps w e :
  (forall c, e <> Called c) ->
  keepaliveInterval (react allows newHandle toString w e) = keepaliveInterval w
  /\ intervals (react allows newHandle toString w e) = intervals w
  /\ listeners (react allows newHandle toString w e) = listeners w.
Proof. intros H. destruct e as [c| |]; [now destruct (H c)| |]; now simpl. Qed.

Lemma firings_keep firings :
  Forall (fun e => forall c, e <> Called c) firings ->
  forall w,
    keepaliveInterval (fold_left (react allows newHandle toString) firings w)
      = keepaliveInterval w
    /\ intervals (fold_left (react allows newHandle toString) firings w)
       = intervals w
    /\ listeners (fold_left (react allows newHandle toString) firings w)
       = listeners w.
Proof.
  induction 1 as [|e firings He _ IH]; intros w; simpl; [auto|].
  destruct (IH (react allows newHandle toString w e)) as (-> & -> & ->).
  now apply react_firing_keeps.
Qed.

(** X10. The effect of [RCAStepPage]: mounting starts one keepalive
    interval and registers the four listeners; unmounting, after any
    number of firings of that interval and of the listeners, leaves no
    keepalive handle, the intervals and the listeners the window had before
    the mount, provided no keepalive was running, [setInterval] returns a
    handle that is not in use and the callback was not registered
    before. *)
Theorem mount_unmount_restores (callback now : Z) (firings : list event)
    (w : Window) :
  (forall m, m !! newHandle m = None) ->
  keepaliveInterval w = None ->
  (forall event, (event, callback) ∉ listeners w) ->
  Forall (fun e => forall c, e <> Called c) firings ->
  let '(w1, unmount) := mount allows newHandle toString callback now w in
  let w2 := unmount (fold_left (react allows newHandle toString) firings w1) in
  (exists handle, keepaliveInterval w1 = Some handle
                  /\ intervals w1 = <[handle := 300000]> (intervals w))
  /\ keepaliveInterval w2 = None
  /\ intervals w2 = intervals w
  /\ listeners w2 = listeners w.
Proof.
  intros Hfresh Hnone Hcb Hfir. unfold mount.
  assert (Hw0 : exists w0,
            w0 = startKeepalive allows newHandle toString None now w
            /\ keepaliveInterval w0 = Some (newHandle (intervals w))
            /\ intervals w0 = <[newHandle (intervals w) := 300000]> (intervals w)
            /\ listeners w0 = listeners w).
  { eexists. split; [reflexivity|]. unfold startKeepalive. rewrite Hnone.
    simpl. auto. }
  destruct Hw0 as (w0 & <- & Hk0 & Hi0 & Hl0).
  pose proof (setupActivityTracking_listeners callback w0) as [H1 H2].
  destruct (setupActivityTracking callback w0) as [w1 cleanup] eqn:E.
  cbn [fst snd] in H1, H2. cbv zeta.
  assert (Hw1 : keepaliveInterval w1 = keepaliveInterval w0
                /\ intervals w1 = intervals w0).
  { unfold setupActivityTracking in E. injection E as <- _. simpl. auto. }
  destruct Hw1 as (Hk1 & Hi1).
  set (w1' := fold_left (react allows newHandle toString) firings w1).
  assert (Hw1' : keepaliveInterval w1' = keepaliveInterval w1
                 /\ intervals w1' = intervals w1
                 /\ listeners w1' = listeners w1).
  { unfold w1'. now apply firings_keep. }
  destruct Hw1' as (Hk1' & Hi1' & Hl1').
  split; [exists (newHandle (intervals w)); now rewrite Hk1, Hi1|].
  destruct (H2 (stopKeepalive w1')) as (-> & -> & -> & _).
  unfold stopKeepalive. rewrite Hk1', Hk1, Hk0. simpl.
  rewrite Hi1', Hi1, Hi0, Hl1', H1, Hl0.
  split; [reflexivity|]. split; [now apply delete_insert_id|].
  apply set_eq. intros [event other].
  rewrite elem_of_difference, elem_of_union. split; [tauto|].
  intros Hin. split; [now right|].
  intros Hc. apply (Hcb event).
  assert (other = callback) as <-; [|exact Hin].
  set_unfold in Hc. destruct Hc as [Hc|[Hc|[Hc|[Hc|[]]]]]; congruence.
Qed.

End KeepaliveFacts.

(** ** Navigation between the steps *)

(** X11. From a step between 1 and the number of steps, which is at most
    10, the next and previous buttons lead to a step in the same range,
    for which [renderStep] returns a component; next stops at the last
    step and previous at the first, and elsewhere each undoes the
    other. *)
Theorem navigation_stays_in_range (n currentStep : Z) :
  1 <= currentStep <= n -> n <= 10 ->
  let next := StepPage.goToNextStep n currentStep in
  let prev := StepPage.goToPrevStep currentStep in
  1 <= next <= n /\ 1 <= prev <= n
  /\ StepPage.renderStep next <> None /\ StepPage.renderStep prev <> None
  /\ (currentStep < n -> StepPage.goToPrevStep next = currentStep)
  /\ (1 < currentStep -> StepPage.goToNextStep n prev = currentStep)
  /\ (currentStep = n -> next = n)
  /\ (currentStep = 1 -> prev = 1).
Proof.
  intros Hs Hn. cbv zeta. unfold StepPage.goToNextStep, StepPage.goToPrevStep.
  assert (Hrender : forall s, 1 <= s <= 10 -> StepPage.renderStep s <> None).
  { intros s Hr.
    assert (s = 1 \/ s = 2 \/ s = 3 \/ s = 4 \/ s = 5 \/ s = 6 \/ s = 7
            \/ s = 8 \/ s = 9 \/ s = 10) as Hcases by lia.
    repeat destruct Hcases as [->|Hcases]; try subst s; discriminate. }
  repeat split; try lia; apply Hrender; lia.
Qed.

(** ** The size selector and the expanded groups *)

Lemma toggleSize_In (prev : list string) (size x : string) :
  In x (toggleSize prev size) <->
  (x <> size /\ In x prev) \/ (x = size /\ ~ In size prev).
Proof.
  unfold toggleSize. destruct (bool_decide (size ∈ prev)) eqn:E.
  - apply bool_decide_eq_true, list_elem_of_In in E.
    rewrite filter_In, negb_true_iff, String.eqb_neq. tauto.
  - apply bool_decide_eq_false in E. rewrite list_elem_of_In in E.
    rewrite in_app_iff. simpl. split.
    + intros [Hx|[<-|[]]]; [|now right].
      left. split; [|exact Hx]. intros ->. contradiction.
    + intros [[_ Hx]|[-> _]]; [now left|right; now left].
Qed.

Lemma toggleSize_NoDup (prev : list string) (size : string) :
  List.NoDup prev -> List.NoDup (toggleSize prev size).
Proof.
  intros Hnd. unfold toggleSize. destruct (bool_decide (size ∈ prev)) eqn:E.
  - now apply List.NoDup_filter.
  - apply bool_decide_eq_false in E. rewrite list_elem_of_In in E.
    apply NoDup_rev in Hnd. rewrite <- (rev_involutive (prev ++ [size])).
    apply NoDup_rev. rewrite rev_app_distr. simpl.
    constructor; [now rewrite <- in_rev|exact Hnd].
Qed.

Lemma toggleSize_twice (prev : list string) (size : string) :
  (forall x, In x (toggleSize prev size) <->
             (x <> size /\ In x prev) \/ (x = size /\ ~ In size prev))
  /\ (List.NoDup prev -> List.NoDup (toggleSize prev size))
  /\ (forall x, In x (toggleSize (toggleSize prev size) size) <-> In x prev).
Proof.
  split; [apply toggleSize_In|]. split; [apply toggleSize_NoDup|].
  intros x. rewrite !toggleSize_In.
  destruct (String.eqb_spec x size) as [->|Hne]; [|tauto].
  destruct (in_dec string_dec size prev); tauto.
Qed.

(** X21. Toggling a size selects it when it was not selected and
    deselects it (every occurrence) when it was, and changes the selection
    of no other size; it never introduces a duplicate; toggling the same
    size twice gives back the same set of selected sizes. *)
Theorem toggleSize_flips_one (prev : list string) (size : string) :
  (forall x, In x (toggleSize prev size) <->
             (x <> size /\ In x prev) \/ (x = size /\ ~ In size prev))
  /\ (List.NoDup prev -> List.NoDup (toggleSize prev size))
  /\ (forall x, In x (toggleSize (toggleSize prev size) size) <-> In x prev).
Proof. apply toggleSize_twice. Qed.

(** X22. Whatever is done in the size dialog (checkboxes of the sizes it
    lists, "Reset to Default", "Select All", in any number and order),
    starting from the default selection: the selected sizes are among the
    twelve sizes of the dialog, without duplicates, and none contains a
    bar. *)
Theorem selected_sizes_invariant (actions : list sizeAction) :
  Forall offered actions ->
  let sizes := fold_left applySizeAction actions DEFAULT_UNIT_SIZES in
  List.NoDup sizes
  /\ (forall x, In x sizes -> In x ALL_UNIT_SIZES)
  /\ (forall x, In x sizes -> has_char "|" x = false).
Proof.
  intros Hoff. cbv zeta.
  assert (Hall : List.NoDup ALL_UNIT_SIZES).
  { unfold ALL_UNIT_SIZES.
    repeat (constructor; [simpl; intros H; repeat destruct H as [H|H];
                          try discriminate H; try destruct H|]).
    constructor. }
  assert (Hinv : forall start,
            List.NoDup start /\ (forall x, In x start -> In x ALL_UNIT_SIZES) ->
            List.NoDup (fold_left applySizeAction actions start)
            /\ (forall x, In x (fold_left applySizeAction actions start) ->
                          In x ALL_UNIT_SIZES)).
  { induction Hoff as [|a actions Ha _ IH]; intros start [Hnd Hsub]; simpl;
      [now split|].
    apply IH. destruct a as [size| |]; simpl.
    - split; [now apply toggleSize_NoDup|].
      intros x Hx. apply toggleSize_In in Hx as [[_ Hx]|[-> _]];
        [now apply Hsub|exact Ha].
    - split; [|unfold DEFAULT_UNIT_SIZES, ALL_UNIT_SIZES; simpl; tauto].
      unfold DEFAULT_UNIT_SIZES.
      repeat (constructor; [simpl; intros H; repeat destruct H as [H|H];
                            try discriminate H; try destruct H|]).
      constructor.
    - now split. }
  destruct (Hinv DEFAULT_UNIT_SIZES) as [Hnd Hsub].
  { split; [|unfold DEFAULT_UNIT_SIZES, ALL_UNIT_SIZES; simpl; tauto].
    unfold DEFAULT_UNIT_SIZES.
    repeat (constructor; [simpl; intros H; repeat destruct H as [H|H];
                          try discriminate H; try destruct H|]).
    constructor. }
  split; [exact Hnd|]. split; [exact Hsub|].
  intros x Hx. apply Hsub in Hx. unfold ALL_UNIT_SIZES in Hx. simpl in Hx.
  repeat destruct Hx as [<-|Hx]; try reflexivity. destruct Hx.
Qed.

Lemma allowedSizes_ext (l1 l2 : list string) :
  (forall x, In x (List.map normalizeSize l1) <-> In x (List.map normalizeSize l2)) ->
  allowedSizes l1 = allowedSizes l2.
Proof.
  intros H. unfold allowedSizes. apply set_eq. intros x.
  rewrite !elem_of_list_to_set, !list_elem_of_In. apply H.
Qed.

(** X23. The report depends on the selected sizes only through the set of
    their normalized forms: two selections with the same normalized sizes,
    in whatever order, multiplicity or spelling, give the same report; so
    toggling a size twice gives the report back. *)
Theorem report_depends_on_size_set
    (subjectStore : option Store.t) (selectedStores : list Store.t)
    (storeMetadata : gmap Z StoreMetadata.t) (storeRankings : gmap Z StoreRankings)
    (adjustmentFactors : AdjustmentFactors.t) (rateRecords : list RateRecord.t)
    (customNames : gmap Z string) (featureCodes : list FeatureCode.t)
    (t12Start t6Start t3Start t1Start : Z) (localeCompare : string -> string -> Z)
    (sizes1 sizes2 : list string) :
  let report sizes :=
    groupedData subjectStore selectedStores storeMetadata storeRankings
      adjustmentFactors rateRecords customNames featureCodes sizes
      t12Start t6Start t3Start t1Start localeCompare in
  ((forall x, In x (List.map normalizeSize sizes1)
              <-> In x (List.map normalizeSize sizes2)) ->
   report sizes1 = report sizes2)
  /\ (forall size, report (toggleSize (toggleSize sizes1 size) size) = report sizes1).
Proof.
  cbv zeta.
  assert (H : forall l1 l2,
            (forall x, In x (List.map normalizeSize l1)
                       <-> In x (List.map normalizeSize l2)) ->
            groupedData subjectStore selectedStores storeMetadata storeRankings
              adjustmentFactors rateRecords customNames featureCodes l1
              t12Start t6Start t3Start t1Start localeCompare
            = groupedData subjectStore selectedStores storeMetadata storeRankings
                adjustmentFactors rateRecords customNames featureCodes l2
                t12Start t6Start t3Start t1Start localeCompare).
  { intros l1 l2 Hl. apply allowedSizes_ext in Hl.
    unfold groupedData, groups, addRecord. now rewrite Hl. }
  split; [apply H|].
  intros size. apply H. intros x. rewrite !in_map_iff.
  pose proof (proj2 (proj2 (toggleSize_twice sizes1 size))) as Ht.
  split; intros (z & Hz & Hin); exists z; (split; [exact Hz|]); now apply Ht.
Qed.

(** X24. Toggling a group expands it when it was collapsed and collapses
    it when it was expanded, changes no other group, and done twice gives
    the expanded set back. *)
Theorem toggleGroup_flips_one (prev : gset string) (groupKey : string) :
  (forall key, key ∈ toggleGroup prev groupKey <->
               (key <> groupKey /\ key ∈ prev) \/ (key = groupKey /\ groupKey ∉ prev))
  /\ toggleGroup (toggleGroup prev groupKey) groupKey = prev.
Proof.
  assert (H : forall s k key, key ∈ toggleGroup s k <->
                              (key <> k /\ key ∈ s) \/ (key = k /\ k ∉ s)).
  { intros s k key. unfold toggleGroup.
    destruct (bool_decide (k ∈ s)) eqn:E.
    - apply bool_decide_eq_true in E.
      rewrite elem_of_difference, elem_of_singleton.
      destruct (decide (key = k)) as [->|]; tauto.
    - apply bool_decide_eq_false in E.
      rewrite elem_of_union, elem_of_singleton.
      destruct (decide (key = k)) as [->|]; tauto. }
  split; [apply H|].
  apply set_eq. intros key. rewrite !H.
  destruct (decide (key = groupKey)) as [->|]; [|tauto].
  destruct (decide (groupKey ∈ prev)); tauto.
Qed.

(** ** The extra properties on the sample inputs *)

(** X1 (witness). The sample snapshot saved at 1000 and read at 2000. *)
Lemma save_then_load_witness :
  WizardStorage.loadWizardState Sample.parseSnapshot 2000
    (WizardStorage.saveWizardState Sample.printSnapshot Sample.allowAll 1000 42%nat ∅)
  = (Some 42%nat,
     WizardStorage.saveWizardState Sample.printSnapshot Sample.allowAll 1000 42%nat ∅).
Proof.
  apply (proj1 (save_then_load Sample.parseSnapshot Sample.printSnapshot
                  Sample.allowAll 1000 2000 42%nat ∅ Sample.snapshotText
                  eq_refl eq_refl eq_refl eq_refl)).
  vm_compute. discriminate.
Defined.

(** X3 (witness). The sample snapshot read eight days late, then again. *)
Lemma load_null_is_final_witness :
  WizardStorage.loadWizardState Sample.parseSnapshot 691201001
    (delete WizardStorage.STORAGE_KEY Sample.storage)
  = (None, delete WizardStorage.STORAGE_KEY Sample.storage)
  /\ WizardStorage.loadWizardState Sample.parseSnapshot 691201001 Sample.storage
     = (None, delete WizardStorage.STORAGE_KEY Sample.storage).
Proof.
  apply (load_null_is_final Sample.parseSnapshot 691201000 691201001
           Sample.storage (delete WizardStorage.STORAGE_KEY Sample.storage)).
  - vm_compute. reflexivity.
  - vm_compute. discriminate.
Defined.

(** X4 (witness). A text that does not parse is still there after the
    load. *)
Lemma unreadable_snapshot_stays_witness :
  WizardStorage.hasSavedState Sample.garbled = true <->
  exists stored,
    Sample.garbled !! WizardStorage.STORAGE_KEY = Some stored
    /\ (stored = EmptyString \/ Sample.parseSnapshot stored = None).
Proof.
  apply (unreadable_snapshot_stays Sample.parseSnapshot 2000 Sample.garbled
           Sample.garbled).
  vm_compute. reflexivity.
Defined.

(** X5 (witness). The sample snapshot read at 2000. *)
Lemma load_agrees_with_timestamp_witness :
  Sample.storage = Sample.storage
  /\ WizardStorage.hasSavedState Sample.storage = true
  /\ exists t, WizardStorage.getLastSavedTimestamp Sample.parseSnapshot Sample.storage
               = Some t
               /\ 2000 - t <= 604800000.
Proof.
  apply (load_agrees_with_timestamp Sample.parseSnapshot 2000 42%nat
           Sample.storage Sample.storage).
  vm_compute. reflexivity.
Defined.

Lemma nextHandle_fresh (m : gmap Z Z) : m !! Sample.nextHandle m = None.
Proof. unfold Sample.nextHandle. apply not_elem_of_dom. apply is_fresh. Qed.

(** X7 (witness). Start, start again with another delay, stop, start. *)
Lemma keepalive_single_timer_witness :
  let w' :=
    Keepalive.run Sample.allowAll Sample.nextHandle Sample.printTime
      [Keepalive.Start None 0; Keepalive.Start (Some 1000) 5; Keepalive.Stop;
       Keepalive.Start None 9] Sample.window in
  match Keepalive.keepaliveInterval w' with
  | None => Keepalive.intervals w' = Keepalive.intervals Sample.window
  | Some handle =>
      Keepalive.intervals Sample.window !! handle = None
      /\ exists intervalMs,
           Keepalive.intervals w'
           = <[handle := intervalMs]> (Keepalive.intervals Sample.window)
  end
  /\ Keepalive.intervals (Keepalive.stopKeepalive w')
     = Keepalive.intervals Sample.window.
Proof.
  apply (keepalive_single_timer Sample.allowAll Sample.nextHandle
           Sample.printTime).
  - exact nextHandle_fresh.
  - reflexivity.
Defined.

(** X10 (witness). Mount on the sample window, two firings, unmount. *)
Lemma mount_unmount_restores_witness :
  let '(w1, unmount) :=
    Keepalive.mount Sample.allowAll Sample.nextHandle Sample.printTime 5 0
      Sample.window in
  let w2 :=
    unmount (fold_left (Keepalive.react Sample.allowAll Sample.nextHandle
                          Sample.printTime)
               [Keepalive.TimerFired 300000; Keepalive.UserActive 300001] w1) in
  (exists handle,
     Keepalive.keepaliveInterval w1 = Some handle
     /\ Keepalive.intervals w1
        = <[handle := 300000]> (Keepalive.intervals Sample.window))
  /\ Keepalive.keepaliveInterval w2 = None
  /\ Keepalive.intervals w2 = Keepalive.intervals Sample.window
  /\ Keepalive.listeners w2 = Keepalive.listeners Sample.window.
Proof.
  apply (mount_unmount_restores Sample.allowAll Sample.nextHandle
           Sample.printTime 5 0
           [Keepalive.TimerFired 300000; Keepalive.UserActive 300001]
           Sample.window).
  - exact nextHandle_fresh.
  - reflexivity.
  - intros event Hin. unfold Sample.window in Hin. simpl in Hin.
    apply elem_of_singleton in Hin. discriminate Hin.
  - repeat constructor; discriminate.
Defined.

(** X11 (witness). The last of ten steps. *)
Lemma navigation_stays_in_range_witness :
  StepPage.goToNextStep 10 10 = 10 /\ StepPage.goToPrevStep 10 = 9.
Proof.
  pose proof (navigation_stays_in_range 10 10) as H. cbv zeta in H.
  destruct H as (_ & _ & _ & _ & _ & Hback & Hlast & _); [lia|lia|].
  split; [now apply Hlast|]. reflexivity.
Defined.

Local Abbreviation sampleRow :=
  (storeRow (Some Sample.subject) Sample.stores ∅ ∅ Sample.factors ∅
     Sample.t12 Sample.t6 Sample.t3 Sample.t1).

Local Abbreviation sampleSelects := (selects [] DEFAULT_UNIT_SIZES).

(** X12 (witness). The subject's row of the sample report. *)
Lemma report_rows_from_input_witness :
  exists g row,
    In g (sampleReport ∅ Sample.records)
    /\ In row (GroupedData.stores g)
    /\ exists key,
         let records :=
           List.filter (sampleSelects key (Row.storeId row)) Sample.records in
         row = sampleRow (Row.storeId row) records
         /\ records <> []
         /\ Row.recordCount row = length records
         /\ GroupedData.size g = nth 0 (JS.split "|" key) EmptyString
         /\ GroupedData.featureCode g = nth 1 (JS.split "|" key) EmptyString.
Proof.
  eexists. eexists.
  split; [vm_compute; left; reflexivity|].
  split; [vm_compute; left; reflexivity|].
  eapply (report_rows_from_input (Some Sample.subject) Sample.stores ∅ ∅
            Sample.factors Sample.records ∅ [] DEFAULT_UNIT_SIZES
            Sample.t12 Sample.t6 Sample.t3 Sample.t1 Sample.collate).
  - vm_compute. left. reflexivity.
  - vm_compute. left. reflexivity.
Defined.

(** X13 (witness). The first record of the sample. *)
Lemma passing_record_is_reported_witness :
  let r := Sample.record 7 "10x10" true true 200 (Some (Qc_of_Z 100)) in
  exists g row,
    let records :=
      List.filter (sampleSelects (groupKeyOf [] r) (RateRecord.storeId r))
        Sample.records in
    In g (sampleReport ∅ Sample.records) /\ In row (GroupedData.stores g)
    /\ row = sampleRow (RateRecord.storeId r) records
    /\ In r records
    /\ GroupedData.size g = nth 0 (JS.split "|" (groupKeyOf [] r)) EmptyString
    /\ GroupedData.featureCode g
       = nth 1 (JS.split "|" (groupKeyOf [] r)) EmptyString.
Proof.
  cbv zeta.
  apply (passing_record_is_reported (Some Sample.subject) Sample.stores ∅ ∅
           Sample.factors Sample.records ∅ [] DEFAULT_UNIT_SIZES
           Sample.t12 Sample.t6 Sample.t3 Sample.t1 Sample.collate).
  - left. reflexivity.
  - vm_compute. reflexivity.
Defined.

(** X16 (witness). The group of the sample report is labelled 10x10 and
    DUCC, the label and code of its records. *)
Lemma group_labels_are_raw_witness :
  exists g,
    In g (sampleReport ∅ Sample.records)
    /\ exists r,
         In r Sample.records /\ passesFilter DEFAULT_UNIT_SIZES r = true
         /\ GroupedData.size g = JS.str_or (RateRecord.size r) EmptyString
         /\ GroupedData.featureCode g
            = nth 0 (JS.split "|" (getFeatureCode [] r)) EmptyString
         /\ (has_char "|" (getFeatureCode [] r) = false ->
             GroupedData.featureCode g = getFeatureCode [] r).
Proof.
  eexists. split; [vm_compute; left; reflexivity|].
  eapply (group_labels_are_raw (Some Sample.subject) Sample.stores ∅ ∅
            Sample.factors Sample.records ∅ [] DEFAULT_UNIT_SIZES
            Sample.t12 Sample.t6 Sample.t3 Sample.t1 Sample.collate).
  - intros selected H. unfold DEFAULT_UNIT_SIZES in H. simpl in H.
    repeat destruct H as [<-|H]; try reflexivity. destruct H.
  - vm_compute. left. reflexivity.
Defined.

(** X17 (witness). The asking figure of the sample group in the 12-month
    window. *)
Lemma group_figure_of_rows_witness :
  exists g,
    In g (sampleReport ∅ Sample.records)
    /\ (groupMeanOf Asking T12 (GroupedData.averages g) = None <->
        forall row, In row (GroupedData.stores g) ->
                    rowMeanOf Asking T12 row = None)
    /\ (forall row, GroupedData.stores g = [row] ->
          groupMeanOf Asking T12 (GroupedData.averages g)
          = rowMeanOf Asking T12 row)
    /\ groupAskingAdjOf T12 (GroupedData.averages g) = None.
Proof.
  eexists. split; [vm_compute; left; reflexivity|].
  eapply (group_figure_of_rows (Some Sample.subject) Sample.stores ∅ ∅
            Sample.factors Sample.records ∅ [] DEFAULT_UNIT_SIZES
            Sample.t12 Sample.t6 Sample.t3 Sample.t1 Sample.collate).
  vm_compute. left. reflexivity.
Defined.

(** X18 (witness). The subject's row of the sample report. *)
Lemma subject_row_is_unadjusted_witness :
  exists g row,
    In g (sampleReport ∅ Sample.records)
    /\ In row (GroupedData.stores g)
    /\ Row.isSubject row = true
    /\ Row.adjustment row = 0%Qc
    /\ (forall w, askingAdjOf w row =
                  match askingOf w row with
                  | Some m => if decide (m = 0%Qc) then None else Some m
                  | None => None
                  end)
    /\ JS.find Row.isSubject (GroupedData.stores g) = Some row
    /\ hd_error (GroupedData.stores g) = Some row.
Proof.
  eexists. eexists.
  split; [vm_compute; left; reflexivity|].
  split; [vm_compute; left; reflexivity|].
  split; [vm_compute; reflexivity|].
  eapply (subject_row_is_unadjusted (Some Sample.subject) Sample.stores ∅ ∅
            Sample.factors Sample.records ∅ [] DEFAULT_UNIT_SIZES
            Sample.t12 Sample.t6 Sample.t3 Sample.t1 Sample.collate).
  - vm_compute. left. reflexivity.
  - vm_compute. left. reflexivity.
  - vm_compute. reflexivity.
Defined.

(** X19 (witness). A label with a leading blank. *)
Lemma parseSize_leading_separator_witness : parseSize " 5x5" = None.
Proof.
  apply (parseSize_leading_separator " "%char "5x5"). left. reflexivity.
Defined.

(** X20 (witness). Store 7 scores 6 for Location, the subject 8, and they
    agree elsewhere: the factor is at least the base adjustment. *)
Lemma ranking_adjustment_direction_witness :
  (baseAdjustment_spec Sample.factors
   <= getStoreAdjustment (Some Sample.subject) Sample.ranked Sample.factors 7)%Qc.
Proof.
  refine (proj1 (ranking_adjustment_direction (Some Sample.subject) Sample.ranked
                   Sample.factors Sample.subject 7
                   {[ "Location" := Qc_of_Z 8 ]} {[ "Location" := Qc_of_Z 6 ]}
                   eq_refl _ _ _) _).
  - discriminate.
  - vm_compute. reflexivity.
  - vm_compute. reflexivity.
  - intros cat Hcat. unfold rankingCategories in Hcat. simpl in Hcat.
    repeat destruct Hcat as [<-|Hcat]; try destruct Hcat;
      vm_compute; intros H; discriminate H.
Defined.

(** X22 (witness). Two checkboxes, a reset, select all and one more
    checkbox. *)
Lemma selected_sizes_invariant_witness :
  let sizes :=
    fold_left applySizeAction
      [Toggle "10x40"; Toggle "5x5"; ResetToDefault; SelectAll; Toggle "20x20"]
      DEFAULT_UNIT_SIZES in
  List.NoDup sizes
  /\ (forall x, In x sizes -> In x ALL_UNIT_SIZES)
  /\ (forall x, In x sizes -> has_char "|" x = false).
Proof.
  apply (selected_sizes_invariant
           [Toggle "10x40"; Toggle "5x5"; ResetToDefault; SelectAll;
            Toggle "20x20"]).
  repeat constructor; simpl; tauto.
Defined.

(** X25 (witness). The rows of store 7 of the sample, in-store prices. *)
Lemma shorter_window_has_no_more_witness :
  let row := sampleRow 7 Sample.records in
  (rowMeanOf InStore T12 row = None -> rowMeanOf InStore T6 row = None)
  /\ (rowMeanOf InStore T6 row = None -> rowMeanOf InStore T3 row = None)
  /\ (rowMeanOf InStore T3 row = None -> rowMeanOf InStore T1 row = None)
  /\ (forall w, rowMeanOf InStore w row =
                rowMeanOf InStore w
                  (sampleRow 7
                     (List.filter (fun r => bool_decide (RateRecord.date r <> None))
                        Sample.records))).
Proof.
  apply (shorter_window_has_no_more (Some Sample.subject) Sample.stores ∅ ∅
           Sample.factors ∅ Sample.t12 Sample.t6 Sample.t3 Sample.t1
           InStore 7 Sample.records); vm_compute; discriminate.
Defined.

(** X26 (witness). Store 3 of the sample has one record with an asking
    price in the 12-month window among the 10x10 records, at 90. *)
Lemma single_price_is_the_mean_witness :
  rowMeanOf Asking T12
    (sampleRow 3
       [ Sample.record 7 "10x10" true true 50 (Some (Qc_of_Z 100));
         Sample.record 3 "10x10" true true 205 (Some (Qc_of_Z 90));
         Sample.record 3 "10x10" true true 207 (Some 0%Qc) ])
  = Some (Qc_of_Z 90).
Proof.
  apply (proj2 (single_price_is_the_mean (Some Sample.subject) Sample.stores ∅ ∅
                  Sample.factors ∅ Sample.t12 Sample.t6 Sample.t3 Sample.t1
                  Asking T12 3 _)
           [Sample.record 7 "10x10" true true 50 (Some (Qc_of_Z 100))]
           (Sample.record 3 "10x10" true true 205 (Some (Qc_of_Z 90)))
           [Sample.record 3 "10x10" true true 207 (Some 0%Qc)]
           (Qc_of_Z 90)).
  - reflexivity.
  - reflexivity.
  - reflexivity.
  - vm_compute. discriminate.
  - intros r' Hr'. simpl in Hr'. destruct Hr' as [<-|[<-|[]]].
    + intros Hw. vm_compute in Hw. discriminate Hw.
    + intros _. reflexivity.
Defined.

(** X27 (witness). The three groups of the second sample report. *)
Lemma group_labels_distinct_witness :
  List.NoDup
    (List.map (fun g => (GroupedData.size g, GroupedData.featureCode g))
       (sampleReport ∅ Sample.unordered)).
Proof.
  apply (group_labels_distinct (Some Sample.subject) Sample.stores ∅ ∅
           Sample.factors Sample.unordered ∅ [] DEFAULT_UNIT_SIZES
           Sample.t12 Sample.t6 Sample.t3 Sample.t1 Sample.collate).
  - intros selected H. unfold DEFAULT_UNIT_SIZES in H. simpl in H.
    repeat destruct H as [<-|H]; try reflexivity. destruct H.
  - intros r H. unfold Sample.unordered in H. simpl in H.
    repeat destruct H as [<-|H]; try reflexivity. destruct H.
Defined.

(** X2 (witness). Loading the sample snapshot eight days late leaves the
    keepalive key alone. *)
Lemma loadWizardState_frame_witness :
  (WizardStorage.loadWizardState Sample.parseSnapshot 691201000 Sample.storage).2
    !! "app-keepalive"
  = Sample.storage !! "app-keepalive".
Proof.
  apply (proj1 (loadWizardState_frame Sample.parseSnapshot 691201000
                  Sample.storage "app-keepalive")).
  discriminate.
Defined.

(** X6 (witness). A new analysis on the sample storage. *)
Lemma new_analysis_forgets_witness :
  (StepPage.handleNewAnalysis Sample.storage).1 !! "app-keepalive"
  = Sample.storage !! "app-keepalive".
Proof.
  pose proof (new_analysis_forgets Sample.parseSnapshot 2000 Sample.storage) as H.
  unfold StepPage.handleNewAnalysis in *. cbn [fst].
  destruct H as (_ & _ & _ & _ & _ & H). apply H. discriminate.
Defined.

(** X8 (witness). A start, a firing and some activity leave the sample
    snapshot where it is. *)
Lemma keepalive_spares_snapshot_witness :
  Keepalive.storage
    (fold_left (Keepalive.react Sample.allowAll Sample.nextHandle Sample.printTime)
       [Keepalive.Called (Keepalive.Start None 0); Keepalive.TimerFired 300000;
        Keepalive.UserActive 300001] Sample.window)
    !! WizardStorage.STORAGE_KEY
  = Keepalive.storage Sample.window !! WizardStorage.STORAGE_KEY.
Proof.
  apply (proj1 (keepalive_spares_snapshot Sample.allowAll Sample.nextHandle
                  Sample.printTime Sample.parseSnapshot
                  [Keepalive.Called (Keepalive.Start None 0);
                   Keepalive.TimerFired 300000; Keepalive.UserActive 300001]
                  Sample.window 2000)); discriminate.
Defined.

(** X9 (witness). Setup and cleanup on the sample window. *)
Lemma activity_tracking_cleanup_witness :
  let '(w1, cleanup) := Keepalive.setupActivityTracking 5 Sample.window in
  Keepalive.listeners (cleanup w1) = Keepalive.listeners Sample.window.
Proof.
  pose proof (activity_tracking_cleanup 5 Sample.window) as H.
  destruct (Keepalive.setupActivityTracking 5 Sample.window) as [w1 cleanup].
  destruct H as (_ & _ & _ & H). apply H.
  intros event Hin. unfold Sample.window in Hin. simpl in Hin.
  apply elem_of_singleton in Hin. discriminate Hin.
Defined.

(** X14 (witness). The group of the sample report. *)
Lemma report_has_no_empty_part_witness :
  exists g,
    In g (sampleReport ∅ Sample.records)
    /\ GroupedData.stores g <> []
    /\ (forall row, In row (GroupedData.stores g) -> (0 < Row.recordCount row)%nat)
    /\ (0 < GroupedData.marketShare g)%Qc.
Proof.
  eexists. split; [vm_compute; left; reflexivity|].
  eapply (proj2 (report_has_no_empty_part (Some Sample.subject) Sample.stores ∅ ∅
                   Sample.factors Sample.records ∅ [] DEFAULT_UNIT_SIZES
                   Sample.t12 Sample.t6 Sample.t3 Sample.t1 Sample.collate)).
  vm_compute. left. reflexivity.
Defined.

(** X15 (witness). A no-break space at the end of a label. *)
Lemma normalizeSize_insensitive_witness :
  normalizeSize ("10X10" ++ String (ascii_of_nat 160) EmptyString)
  = normalizeSize ("10X10" ++ EmptyString).
Proof.
  apply (proj1 (proj2 (proj2 (normalizeSize_insensitive [] [] DEFAULT_UNIT_SIZES
                                ("10X10" ++ String (ascii_of_nat 160) EmptyString))))
           "10X10" EmptyString (ascii_of_nat 160));
    reflexivity.
Defined.

(** X21 (witness). Toggling a size that is not selected. *)
Lemma toggleSize_flips_one_witness :
  In "10x40" (toggleSize DEFAULT_UNIT_SIZES "10x40").
Proof.
  apply (proj2 (proj1 (toggleSize_flips_one DEFAULT_UNIT_SIZES "10x40") "10x40")).
  right. split; [reflexivity|].
  unfold DEFAULT_UNIT_SIZES. simpl. intros H.
  repeat destruct H as [H|H]; try discriminate H. destruct H.
Defined.

(** X23 (witness). Two spellings of the same size. *)
Lemma report_depends_on_size_set_witness :
  groupedData (Some Sample.subject) Sample.stores ∅ ∅ Sample.factors
    Sample.records ∅ [] ["10 X 10"; "10x10'"]
    Sample.t12 Sample.t6 Sample.t3 Sample.t1 Sample.collate
  = groupedData (Some Sample.subject) Sample.stores ∅ ∅ Sample.factors
      Sample.records ∅ [] ["10x10"]
      Sample.t12 Sample.t6 Sample.t3 Sample.t1 Sample.collate.
Proof.
  apply (proj1 (report_depends_on_size_set (Some Sample.subject) Sample.stores
                  ∅ ∅ Sample.factors Sample.records ∅ []
                  Sample.t12 Sample.t6 Sample.t3 Sample.t1 Sample.collate
                  ["10 X 10"; "10x10'"] ["10x10"])).
  intros x. change (List.map normalizeSize ["10 X 10"; "10x10'"])
    with ["10x10"; "10x10"].
  change (List.map normalizeSize ["10x10"]) with ["10x10"].
  simpl. tauto.
Defined.

(** X24 (witness). Expanding a group when none is expanded. *)
Lemma toggleGroup_flips_one_witness :
  "10x10|DUCC" ∈ toggleGroup ∅ "10x10|DUCC".
Proof.
  apply (proj2 (proj1 (toggleGroup_flips_one ∅ "10x10|DUCC") "10x10|DUCC")).
  right. split; [reflexivity|]. apply not_elem_of_empty.
Defined.
